(** * pyqsys: the QSC Core connection engine (qsc_core.py, qrc_methods.py)

    A shallow embedding of the transport engine of the client: the frame
    extraction of the socket worker, the error-code translation, the
    request/response correlation of the callers, the keep-alive countdown
    and the shutdown sequence.

    Conventions of the embedding.
    - [bytes] is [list byte]; [b'\00'] is the one-byte sequence [x00].
    - Python values that travel through the engine (command dicts, results,
      error records, [None]) are values of [json]; [None] is [JNull] and a
      dict is an association list in insertion order.
    - A method of [Core] is a computation in the monad [M core], which
      threads the fields of the object and ends in a returned value, a
      raised exception or a caller parked on a blocking call.
    - The two worker threads and the caller threads are interleaved at the
      granularity of one loop iteration (or one call of a public method):
      an [event] of the system is one such atomic unit. *)

From Stdlib Require Import String Ascii Strings.Byte.
From Stdlib Require Import List Bool Arith ZArith Lia.
From Stdlib Require Import DecimalString.
Import ListNotations.
Open Scope string_scope.
Open Scope nat_scope.
Open Scope list_scope.

Set Implicit Arguments.

(** ** Bytes *)

Definition bytes := list byte.

(** A bytes literal [b'...'] with ASCII content. *)
Definition lit (s : string) : bytes := list_byte_of_string s.

Fixpoint starts_with (sub data : bytes) : bool :=
  match sub, data with
  | [], _ => true
  | _ :: _, [] => false
  | x :: sub', y :: data' => Byte.eqb x y && starts_with sub' data'
  end.

(** [bytes.count(sub)]: the number of non-overlapping occurrences, scanned
    from the left.  [skip] is the number of bytes still covered by the
    occurrence found last. *)
Fixpoint count_from (sub : bytes) (skip : nat) (data : bytes) : nat :=
  match data with
  | [] =>
      match skip, sub with
      | O, [] => 1
      | _, _ => 0
      end
  | _ :: data' =>
      match skip with
      | S k => count_from sub k data'
      | O =>
          if starts_with sub data
          then S (count_from sub (Nat.pred (length sub)) data')
          else count_from sub 0 data'
      end
  end.

Definition count (data sub : bytes) : nat := count_from sub 0 data.

(** [bytes.split(sep)] for a one-byte separator: always a non-empty list,
    one more segment than there are separators. *)
Fixpoint split (sep : byte) (data : bytes) : list bytes :=
  match data with
  | [] => [[]]
  | x :: data' =>
      if Byte.eqb x sep then [] :: split sep data'
      else
        match split sep data' with
        | seg :: segs => (x :: seg) :: segs
        | [] => [[x]]
        end
  end.

(** ** Exceptions, outcomes and the state monad of the engine *)

Inductive exn : Type :=
| LookupError (msg : string)        (* raised by parse_response *)
| AttributeError (msg : string)     (* attribute access on None *)
| RuntimeError (msg : string)       (* joining a thread never started *)
| OSError (msg : string)            (* socket failure *)
| ValueError (msg : string).        (* undecodable or unparsable frame *)

Inductive outcome (A : Type) : Type :=
| Done (a : A)
| Raised (e : exn)
| Blocked.

Arguments Raised {A} e.
Arguments Blocked {A}.

Definition M (S A : Type) : Type := S -> outcome A * S.

Definition ret {S A} (a : A) : M S A := fun st => (Done a, st).

Definition bind {S A B} (c : M S A) (k : A -> M S B) : M S B :=
  fun st =>
    match c st with
    | (Done a, st') => k a st'
    | (Raised e, st') => (Raised e, st')
    | (Blocked, st') => (Blocked, st')
    end.

Definition raise {S A} (e : exn) : M S A := fun st => (Raised e, st).
Definition block {S A} : M S A := fun st => (Blocked, st).
Definition get {S} : M S S := fun st => (Done st, st).
Definition modify {S} (f : S -> S) : M S unit := fun st => (Done tt, f st).

Declare Scope engine_scope.
Delimit Scope engine_scope with engine.
Notation "x <- c ;; k" := (bind c (fun x => k))
  (at level 61, c at next level, right associativity) : engine_scope.
Notation "c ;; k" := (bind c (fun _ => k))
  (at level 61, right associativity) : engine_scope.
Open Scope engine_scope.

(** A computation fails when it ends in a raised exception. *)
Definition fails {A} (o : outcome A) : Prop := exists e, o = Raised e.

(** ** Frame extraction of the socket worker (sock_handler, lines 58-74)

    The worker keeps the local buffer [data].  The body of the [for] loop
    that is run on every delimited segment is the parameter [handle]; the
    worker instantiates it with [dispatch] below. *)
Section FrameLoop.
Variable S : Type.
Variable handle : bytes -> M S unit.

(** [for index, response in enumerate(responses_and_any_overflow)]:
    the segment at index [null_term_count] is written back to [data] and
    the loop is left; every segment before it is handled. *)
Fixpoint for_enumerate (null_term_count index : nat)
         (responses_and_any_overflow : list bytes) (data : bytes)
  : M S bytes :=
  match responses_and_any_overflow with
  | [] => ret data
  | response :: rest =>
      if index =? null_term_count then ret response
      else handle response ;;
           for_enumerate null_term_count (Datatypes.S index) rest data
  end.

(** One successful [recv]: lines 59-74. *)
Definition recv_chunk (chunk : bytes) (data : bytes) : M S bytes :=
  let data := data ++ chunk in
  let null_term_count := count data [x00] in
  if 0 <? null_term_count
  then for_enumerate null_term_count 0 (split x00 data) data
  else ret data.

(** Successive reads of the worker, the buffer carried from one to the
    next. *)
Fixpoint recv_chunks (chunks : list bytes) (data : bytes) : M S bytes :=
  match chunks with
  | [] => ret data
  | chunk :: chunks' =>
      data' <- recv_chunk chunk data ;; recv_chunks chunks' data'
  end.

(** Handling a list of frames in order, then leaving [rest] in the
    buffer. *)
Fixpoint handle_frames (frames : list bytes) (rest : bytes) : M S bytes :=
  match frames with
  | [] => ret rest
  | f :: frames' => handle f ;; handle_frames frames' rest
  end.
End FrameLoop.

(** The byte stream that delivers [frames], each followed by its delimiter. *)
Definition delimited (frames : list bytes) : bytes :=
  concat (map (fun f => f ++ [x00]) frames).

(** The recording handler: the state is the list of frames seen so far. *)
Definition record_frame (f : bytes) : M (list bytes) unit :=
  modify (fun seen => seen ++ [f]).

(** ** Python values: JSON

    The values the engine handles are what [json.loads] produces and
    [json.dumps] accepts; floats are left out (no code path of the engine
    inspects a number other than an id or an error code). *)
#[local] Unset Elimination Schemes.
Inductive json : Type :=
| JNull
| JBool (v : bool)
| JInt (n : Z)
| JStr (s : string)
| JList (items : list json)
| JDict (items : list (string * json)).
#[local] Set Elimination Schemes.

(** Truth value of a Python object ([if params], [if not names]). *)
Definition truthy (j : json) : bool :=
  match j with
  | JNull => false
  | JBool v => v
  | JInt n => negb (n =? 0)%Z
  | JStr s => negb (String.eqb s "")
  | JList items => match items with [] => false | _ => true end
  | JDict items => match items with [] => false | _ => true end
  end.

(** [d[key]] on a dict; [None] of Rocq when the key is absent. *)
Fixpoint lookup (key : string) (items : list (string * json)) : option json :=
  match items with
  | [] => None
  | (k, v) :: items' => if String.eqb k key then Some v else lookup key items'
  end.

Definition has_key (key : string) (j : json) : bool :=
  match j with
  | JDict items => match lookup key items with Some _ => true | None => false end
  | _ => false
  end.

(** *** [json.dumps] with its defaults ([ensure_ascii=True], a comma and a
    space between items, a colon and a space after a key) *)

Definition quote : ascii := "034"%char.
Definition backslash : ascii := "092"%char.

Definition hex_digit (n : nat) : ascii :=
  match n with
  | 0 => "0" | 1 => "1" | 2 => "2" | 3 => "3" | 4 => "4" | 5 => "5"
  | 6 => "6" | 7 => "7" | 8 => "8" | 9 => "9" | 10 => "a" | 11 => "b"
  | 12 => "c" | 13 => "d" | 14 => "e" | _ => "f"
  end%char.

(** One character of a string literal: the backslash and the double quote
    are escaped by a backslash, backspace, tab, newline, form feed and
    carriage return by their short escapes, every other character outside
    space..tilde as a four-digit hexadecimal escape. *)
Definition escape_char (c : ascii) : string :=
  let n := nat_of_ascii c in
  if Ascii.eqb c quote then String backslash (String quote "")
  else if Ascii.eqb c backslash then String backslash (String backslash "")
  else if n =? 8 then String backslash "b"
  else if n =? 9 then String backslash "t"
  else if n =? 10 then String backslash "n"
  else if n =? 12 then String backslash "f"
  else if n =? 13 then String backslash "r"
  else if (32 <=? n) && (n <=? 126) then String c ""
  else String backslash
         (String "u" (String "0" (String "0"
            (String (hex_digit (n / 16)) (String (hex_digit (n mod 16)) ""))))).

Fixpoint escape (s : string) : string :=
  match s with
  | EmptyString => EmptyString
  | String c s' => (escape_char c ++ escape s')%string
  end.

Definition encode_basestring_ascii (s : string) : string :=
  String quote (escape s ++ String quote "")%string.

Fixpoint json_dumps (j : json) : string :=
  match j with
  | JNull => "null"
  | JBool true => "true"
  | JBool false => "false"
  | JInt n => NilZero.string_of_int (Z.to_int n)
  | JStr s => encode_basestring_ascii s
  | JList items =>
      let fix elements (l : list json) : string :=
        match l with
        | [] => EmptyString
        | x :: l' =>
            (json_dumps x ++
             match l' with [] => "" | _ :: _ => ", " ++ elements l' end)%string
        end in
      ("[" ++ elements items ++ "]")%string
  | JDict items =>
      let fix members (l : list (string * json)) : string :=
        match l with
        | [] => EmptyString
        | (k, v) :: l' =>
            (encode_basestring_ascii k ++ ": " ++ json_dumps v ++
             match l' with [] => "" | _ :: _ => ", " ++ members l' end)%string
        end in
      ("{" ++ members items ++ "}")%string
  end.

(** [str.encode('UTF8')] of the output of [json.dumps], which is ASCII
    only: one byte per character. *)
Definition encode_utf8 (s : string) : bytes := list_byte_of_string s.

(** ** Responses as [jsonrpcclient.parse_json] returns them

    Ids of the protocol are numbers, strings or null. *)
Inductive rpc_id : Type :=
| IdInt (n : Z)
| IdStr (s : string)
| IdNull.

Definition rpc_id_eqb (x y : rpc_id) : bool :=
  match x, y with
  | IdInt n, IdInt m => (n =? m)%Z
  | IdStr s, IdStr t => String.eqb s t
  | IdNull, IdNull => true
  | _, _ => false
  end.

(** [Ok(result, id)] and [Error(code, message, data, id)] are the named
    tuples of the library; a batch answer is an iterator, an instance of
    neither. *)
Inductive parsed_json : Type :=
| Ok (result : json) (id : rpc_id)
| Error (code : Z) (message : string) (data : json) (id : rpc_id)
| Batch.

Definition id_of_json (j : json) : option rpc_id :=
  match j with
  | JInt n => Some (IdInt n)
  | JStr s => Some (IdStr s)
  | JNull => Some IdNull
  | _ => None
  end.

(** ** The state of a [Core] object *)

(** A [threading.Thread]: created, started and running, returned from its
    target, or ended by an exception of its target. *)
Inductive thread : Type :=
| Created
| Running
| Finished
| Died (e : exn).

Definition is_alive (t : thread) : bool :=
  match t with
  | Running => true
  | _ => false
  end.

(** The stream socket: the bytes handed to [sendall] so far, in order, and
    whether [connect], [setblocking(False)] and [close] were called. *)
Record socket : Type := {
  wire : bytes;
  connected : bool;
  nonblocking : bool;
  closed : bool
}.

Definition new_socket : socket :=
  {| wire := []; connected := false; nonblocking := false; closed := false |}.

Inductive log_entry : Type :=
| LogInfo (msg : string)
| LogError (msg : string)
| LogErrorCode (code : Z)      (* logging.error of an error code *)
| Printed (msg : string).      (* print *)

Record core : Type := {
  sock : option socket;
  sock_thread : option thread;
  keepalive_thread : option thread;
  msg_queue : list json;
  response_queue : list parsed_json;
  keepalive_event : bool;
  response_is_ready : bool;
  stop_threads : bool;
  noop_timer : Z;
  (* the local [data] of the running sock_handler *)
  sock_handler_data : bytes;
  (* the id generator of jsonrpcclient: the next id it hands out *)
  id_generator : Z;
  (* what logging and print have emitted *)
  log : list log_entry
}.

(** [Core.__init__] (the method tables and the address play no part). *)
Definition init : core :=
  {| sock := None; sock_thread := None; keepalive_thread := None;
     msg_queue := []; response_queue := [];
     keepalive_event := false; response_is_ready := false;
     stop_threads := false; noop_timer := 29;
     sock_handler_data := []; id_generator := 1; log := [] |}.

Definition set_sock (v : option socket) (c : core) : core :=
  {| sock := v; sock_thread := sock_thread c;
     keepalive_thread := keepalive_thread c; msg_queue := msg_queue c;
     response_queue := response_queue c; keepalive_event := keepalive_event c;
     response_is_ready := response_is_ready c; stop_threads := stop_threads c;
     noop_timer := noop_timer c; sock_handler_data := sock_handler_data c;
     id_generator := id_generator c; log := log c |}.

Definition set_sock_thread (v : option thread) (c : core) : core :=
  {| sock := sock c; sock_thread := v;
     keepalive_thread := keepalive_thread c; msg_queue := msg_queue c;
     response_queue := response_queue c; keepalive_event := keepalive_event c;
     response_is_ready := response_is_ready c; stop_threads := stop_threads c;
     noop_timer := noop_timer c; sock_handler_data := sock_handler_data c;
     id_generator := id_generator c; log := log c |}.

Definition set_keepalive_thread (v : option thread) (c : core) : core :=
  {| sock := sock c; sock_thread := sock_thread c;
     keepalive_thread := v; msg_queue := msg_queue c;
     response_queue := response_queue c; keepalive_event := keepalive_event c;
     response_is_ready := response_is_ready c; stop_threads := stop_threads c;
     noop_timer := noop_timer c; sock_handler_data := sock_handler_data c;
     id_generator := id_generator c; log := log c |}.

Definition set_msg_queue (v : list json) (c : core) : core :=
  {| sock := sock c; sock_thread := sock_thread c;
     keepalive_thread := keepalive_thread c; msg_queue := v;
     response_queue := response_queue c; keepalive_event := keepalive_event c;
     response_is_ready := response_is_ready c; stop_threads := stop_threads c;
     noop_timer := noop_timer c; sock_handler_data := sock_handler_data c;
     id_generator := id_generator c; log := log c |}.

Definition set_response_queue (v : list parsed_json) (c : core) : core :=
  {| sock := sock c; sock_thread := sock_thread c;
     keepalive_thread := keepalive_thread c; msg_queue := msg_queue c;
     response_queue := v; keepalive_event := keepalive_event c;
     response_is_ready := response_is_ready c; stop_threads := stop_threads c;
     noop_timer := noop_timer c; sock_handler_data := sock_handler_data c;
     id_generator := id_generator c; log := log c |}.

Definition set_keepalive_event (v : bool) (c : core) : core :=
  {| sock := sock c; sock_thread := sock_thread c;
     keepalive_thread := keepalive_thread c; msg_queue := msg_queue c;
     response_queue := response_queue c; keepalive_event := v;
     response_is_ready := response_is_ready c; stop_threads := stop_threads c;
     noop_timer := noop_timer c; sock_handler_data := sock_handler_data c;
     id_generator := id_generator c; log := log c |}.

Definition set_response_is_ready (v : bool) (c : core) : core :=
  {| sock := sock c; sock_thread := sock_thread c;
     keepalive_thread := keepalive_thread c; msg_queue := msg_queue c;
     response_queue := response_queue c; keepalive_event := keepalive_event c;
     response_is_ready := v; stop_threads := stop_threads c;
     noop_timer := noop_timer c; sock_handler_data := sock_handler_data c;
     id_generator := id_generator c; log := log c |}.

Definition set_stop_threads (v : bool) (c : core) : core :=
  {| sock := sock c; sock_thread := sock_thread c;
     keepalive_thread := keepalive_thread c; msg_queue := msg_queue c;
     response_queue := response_queue c; keepalive_event := keepalive_event c;
     response_is_ready := response_is_ready c; stop_threads := v;
     noop_timer := noop_timer c; sock_handler_data := sock_handler_data c;
     id_generator := id_generator c; log := log c |}.

Definition set_noop_timer (v : Z) (c : core) : core :=
  {| sock := sock c; sock_thread := sock_thread c;
     keepalive_thread := keepalive_thread c; msg_queue := msg_queue c;
     response_queue := response_queue c; keepalive_event := keepalive_event c;
     response_is_ready := response_is_ready c; stop_threads := stop_threads c;
     noop_timer := v; sock_handler_data := sock_handler_data c;
     id_generator := id_generator c; log := log c |}.

Definition set_sock_handler_data (v : bytes) (c : core) : core :=
  {| sock := sock c; sock_thread := sock_thread c;
     keepalive_thread := keepalive_thread c; msg_queue := msg_queue c;
     response_queue := response_queue c; keepalive_event := keepalive_event c;
     response_is_ready := response_is_ready c; stop_threads := stop_threads c;
     noop_timer := noop_timer c; sock_handler_data := v;
     id_generator := id_generator c; log := log c |}.

Definition set_id_generator (v : Z) (c : core) : core :=
  {| sock := sock c; sock_thread := sock_thread c;
     keepalive_thread := keepalive_thread c; msg_queue := msg_queue c;
     response_queue := response_queue c; keepalive_event := keepalive_event c;
     response_is_ready := response_is_ready c; stop_threads := stop_threads c;
     noop_timer := noop_timer c; sock_handler_data := sock_handler_data c;
     id_generator := v; log := log c |}.

Definition set_log (v : list log_entry) (c : core) : core :=
  {| sock := sock c; sock_thread := sock_thread c;
     keepalive_thread := keepalive_thread c; msg_queue := msg_queue c;
     response_queue := response_queue c; keepalive_event := keepalive_event c;
     response_is_ready := response_is_ready c; stop_threads := stop_threads c;
     noop_timer := noop_timer c; sock_handler_data := sock_handler_data c;
     id_generator := id_generator c; log := v |}.

(** The bytes written to the socket of a core so far. *)
Definition written (c : core) : bytes :=
  match sock c with
  | Some s => wire s
  | None => []
  end.

(** *** Primitive effects *)

Definition emit (e : log_entry) : M core unit :=
  modify (fun c => set_log (log c ++ [e]) c).

Definition logging_info (msg : string) : M core unit := emit (LogInfo msg).
Definition logging_error (msg : string) : M core unit := emit (LogError msg).
Definition print (msg : string) : M core unit := emit (Printed msg).

(** [self.sock_thread.is_alive()]; the attribute access fails on [None]. *)
Definition sock_thread_is_alive : M core bool :=
  c <- get ;;
  match sock_thread c with
  | None =>
      raise (AttributeError "'NoneType' object has no attribute 'is_alive'")
  | Some t => ret (is_alive t)
  end.

(** [queue.Queue.put] on an unbounded queue. *)
Definition msg_queue_put (cmd : json) : M core unit :=
  modify (fun c => set_msg_queue (msg_queue c ++ [cmd]) c).

Definition response_queue_put (r : parsed_json) : M core unit :=
  modify (fun c => set_response_queue (response_queue c ++ [r]) c).

(** [queue.Queue.get]: the caller is parked while the queue is empty. *)
Definition response_queue_get : M core parsed_json :=
  c <- get ;;
  match response_queue c with
  | [] => block
  | r :: q => modify (set_response_queue q) ;; ret r
  end.

(** [threading.Event.wait]: the caller is parked while the flag is down. *)
Definition response_is_ready_wait : M core unit :=
  c <- get ;;
  if response_is_ready c then ret tt else block.

(** [self.sock.sendall(payload)] on a socket that takes the whole payload.
    The socket is non-blocking (line 174): the call on a socket whose send
    buffer is full raises instead, see [sock_sendall_blocked]. *)
Definition sock_sendall (payload : bytes) : M core unit :=
  c <- get ;;
  match sock c with
  | None =>
      raise (AttributeError "'NoneType' object has no attribute 'sendall'")
  | Some s =>
      if closed s then raise (OSError "Bad file descriptor")
      else modify (set_sock (Some {| wire := wire s ++ payload;
                                     connected := connected s;
                                     nonblocking := nonblocking s;
                                     closed := closed s |}))
  end.

(** ** Helper methods of [Core] *)

Definition error_record (msg : string) (error_code : Z) : json :=
  JDict [("Error"%string, JStr msg); ("Code"%string, JInt error_code)].

(** [Core._parse_error]: a [match] on the code with no default case; a
    code that matches no case falls off the end, the call returns [None]. *)
Definition _parse_error (error_code : Z) : json :=
  if (error_code =? -32700)%Z then
    error_record "Parse error. Invalid JSON was received by the server."
                 error_code
  else if (error_code =? -32600)%Z then
    error_record
      "Invalid request. The JSON sent is not a valid Request object."
      error_code
  else if (error_code =? -32601)%Z then
    error_record "Method not found." error_code
  else if (error_code =? -32602)%Z then
    error_record "Invalid params." error_code
  else if (error_code =? -32603)%Z then
    error_record "Server error." error_code
  else if (error_code =? -32604)%Z then
    error_record
      ("Core is on Standby. This code is returned when a QRC command is received "
       ++ "while the Core is not the active Core in a redundant Core configuration.")
      error_code
  else if (error_code =? 2)%Z then
    error_record "Invalid Page Request ID" error_code
  else if (error_code =? 3)%Z then
    error_record
      "Bad Page Request - could not create the requested Page Request"
      error_code
  else if (error_code =? 4)%Z then
    error_record "Missing file" error_code
  else if (error_code =? 5)%Z then
    error_record "Change Groups exhausted" error_code
  else if (error_code =? 6)%Z then
    error_record "Unknown change group" error_code
  else if (error_code =? 7)%Z then
    error_record "Unknown component name" error_code
  else if (error_code =? 8)%Z then
    error_record "Unknown control" error_code
  else if (error_code =? 9)%Z then
    error_record "Illegal mixer channel index" error_code
  else if (error_code =? 10)%Z then
    error_record "Logon required" error_code
  else JNull.

(** The cases of the [match], as a table: code and message. *)
Definition error_table : list (Z * string) :=
  [(-32700, "Parse error. Invalid JSON was received by the server.");
   (-32600, "Invalid request. The JSON sent is not a valid Request object.");
   (-32601, "Method not found.");
   (-32602, "Invalid params.");
   (-32603, "Server error.");
   (-32604,
    ("Core is on Standby. This code is returned when a QRC command is received "
     ++ "while the Core is not the active Core in a redundant Core configuration.")%string);
   (2, "Invalid Page Request ID");
   (3, "Bad Page Request - could not create the requested Page Request");
   (4, "Missing file");
   (5, "Change Groups exhausted");
   (6, "Unknown change group");
   (7, "Unknown component name");
   (8, "Unknown control");
   (9, "Illegal mixer channel index");
   (10, "Logon required")]%Z.

(** The codes the translator has a case for. *)
Definition documented_codes : list Z := map fst error_table.

(** [Core.parse_response].  The class pattern [Error(message)] binds its
    one positional sub-pattern to the first field of the named tuple, the
    code: the variable the source calls [message] holds the code. *)
Definition parse_response (cmd_id : rpc_id) (parsed : parsed_json)
  : M core json :=
  match parsed with
  | Ok result id =>
      if rpc_id_eqb id cmd_id then
        modify (set_response_is_ready false) ;;
        ret result
      else raise (LookupError "Response has incorrect ID.")
  | Error message _ _ _ =>
      emit (LogErrorCode message) ;;
      ret (_parse_error message)
  | Batch => ret JNull
  end.

(** [jsonrpcclient.request(method, params=params)], a library outside the
    repository: the request dict with the next id of the generator, the
    [params] member present when [params] is truthy. *)
Definition _build_cmd (method : string) (params : json) : M core json :=
  c <- get ;;
  modify (set_id_generator (id_generator c + 1)%Z) ;;
  ret (JDict ([("jsonrpc"%string, JStr "2.0");
               ("method"%string, JStr method)]
              ++ (if truthy params then [("params"%string, params)] else [])
              ++ [("id"%string, JInt (id_generator c))])).

(** [cmd["id"]]. *)
Definition getitem_id (cmd : json) : M core rpc_id :=
  match cmd with
  | JDict items =>
      match lookup "id" items with
      | Some j =>
          match id_of_json j with
          | Some i => ret i
          | None => raise (ValueError "id")
          end
      | None => raise (LookupError "KeyError: 'id'")
      end
  | _ => raise (LookupError "KeyError: 'id'")
  end.

(** The bytes that [_send_cmd] hands to [sendall]. *)
Definition wire_bytes (cmd : json) : bytes :=
  encode_utf8 (json_dumps cmd) ++ [x00].

(** [Core._send_cmd]: [sendall] returns [None], the method returns [True];
    an exception of [sendall] is raised again. *)
Definition _send_cmd (cmd : json) : M core bool :=
  sock_sendall (wire_bytes cmd) ;;
  ret true.

(** The dict of the heartbeat, line 83. *)
Definition noop_cmd : json :=
  JDict [("jsonrpc"%string, JStr "2.0");
         ("method"%string, JStr "NoOp");
         ("params"%string, JDict [])].

(** ** The worker threads *)

Section Engine.
(** [bytes.decode('UTF8')] and [jsonrpcclient.parse_json]; [None] stands
    for the exception either raises on input it rejects. *)
Variable decode : bytes -> option string.
Variable parse_json : string -> option parsed_json.

Definition response_decode (response : bytes) : M core string :=
  match decode response with
  | Some text => ret text
  | None => raise (ValueError "UnicodeDecodeError")
  end.

Definition do_parse_json (text : string) : M core parsed_json :=
  match parse_json text with
  | Some parsed => ret parsed
  | None => raise (ValueError "JSONDecodeError")
  end.

(** Lines 68-74: the body of the [for] loop below the overflow test. *)
Definition dispatch (response : bytes) : M core unit :=
  if 0 <? count response (lit "EngineStatus") then
    text <- response_decode response ;;
    logging_info text
  else
    text <- response_decode response ;;
    parsed <- do_parse_json text ;;
    response_queue_put parsed ;;
    modify (set_response_is_ready true).

(** Lines 58-74: [recv] returned [chunk]. *)
Definition on_recv (chunk : bytes) : M core unit :=
  c <- get ;;
  data <- recv_chunk dispatch chunk (sock_handler_data c) ;;
  modify (set_sock_handler_data data).

(** Lines 75-87: [recv] raised [BlockingIOError]. *)
Definition on_would_block : M core unit :=
  c <- get ;;
  match msg_queue c with
  | cmd :: q =>
      modify (set_msg_queue q) ;;
      sent <- _send_cmd cmd ;;
      if sent then modify (set_noop_timer 29) else ret tt
  | [] =>
      if keepalive_event c then
        _send_cmd noop_cmd ;;
        modify (set_keepalive_event false) ;;
        modify (set_noop_timer 29)
      else ret tt
  end.

(** The condition of the [while] of sock_handler. *)
Definition sock_handler_continues (c : core) : bool :=
  negb (stop_threads c)
  || negb (match msg_queue c with [] => true | _ => false end).

(** The condition of the [while] of keepalive. *)
Definition keepalive_continues (c : core) : bool :=
  negb (stop_threads c)
  && match sock_thread c with Some t => is_alive t | None => false end.

(** Lines 91-97: the body of the [while] of keepalive, under the lock. *)
Definition keepalive_body : M core unit :=
  c <- get ;;
  if (noop_timer c =? 0)%Z then
    modify (set_keepalive_event true) ;;
    modify (set_noop_timer 29) ;;
    logging_info "NoOp - keep alive"
  else
    modify (set_noop_timer (noop_timer c - 1)%Z).

(** [Core.no_op]. *)
Definition no_op : M core json :=
  alive <- sock_thread_is_alive ;;
  c <- get ;;
  if alive && negb (keepalive_event c) then
    modify (set_keepalive_event true) ;;
    modify (set_noop_timer 29) ;;
    ret JNull
  else
    logging_error
      "Request could not be sent. There is no active connection to the core." ;;
    ret JNull.

(** *** The interleaving of the threads

    One event is one iteration of a worker loop, or one step of a caller
    that the workers can observe. *)
Inductive event : Type :=
| IoRecv (chunk : bytes)   (* sock_handler: recv returns chunk *)
| IoWouldBlock             (* sock_handler: recv raises BlockingIOError *)
| Tick                     (* keepalive: one iteration *)
| CallerPut (cmd : json)   (* a caller: msg_queue.put(cmd) *)
| CallerNoOp.              (* a caller: no_op() *)

(** One turn of the sock_handler thread: the test of the [while], then
    the body; an exception that leaves the body ends the thread. *)
Definition sock_handler_turn (body : M core unit) (c : core) : core :=
  match sock_thread c with
  | Some Running =>
      if sock_handler_continues c then
        match body c with
        | (Done _, c') => c'
        | (Raised e, c') => set_sock_thread (Some (Died e)) c'
        | (Blocked, c') => c'
        end
      else set_sock_thread (Some Finished) c
  | _ => c
  end.

Definition keepalive_turn (c : core) : core :=
  match keepalive_thread c with
  | Some Running =>
      if keepalive_continues c then
        match keepalive_body c with
        | (Done _, c') => c'
        | (Raised e, c') => set_keepalive_thread (Some (Died e)) c'
        | (Blocked, c') => c'
        end
      else set_keepalive_thread (Some Finished) c
  | _ => c
  end.

Definition step (ev : event) (c : core) : core :=
  match ev with
  | IoRecv chunk => sock_handler_turn (on_recv chunk) c
  | IoWouldBlock => sock_handler_turn on_would_block c
  | Tick => keepalive_turn c
  | CallerPut cmd => snd (msg_queue_put cmd c)
  | CallerNoOp => snd (no_op c)
  end.

Definition run (tr : list event) (c : core) : core :=
  fold_left (fun c ev => step ev c) tr c.

(** ** Public methods *)

(** [Core.connect].  [reachable] tells whether [sock.connect] succeeds. *)
Definition connect (reachable : bool) : M core json :=
  logging_info "Connecting to Core..." ;;
  c <- get ;;
  if match sock_thread c with
     | None => true
     | Some t => negb (is_alive t)
     end
  then
    modify (set_sock (Some new_socket)) ;;
    modify (set_sock_thread (Some Created)) ;;
    modify (set_keepalive_thread (Some Created)) ;;
    (if reachable then
       modify (set_sock (Some {| wire := []; connected := true;
                                 nonblocking := false; closed := false |}))
     else raise (OSError "Connection refused")) ;;
    modify (set_sock (Some {| wire := []; connected := true;
                              nonblocking := true; closed := false |})) ;;
    modify (set_stop_threads false) ;;
    modify (set_response_is_ready false) ;;
    modify (set_keepalive_event false) ;;
    modify (fun c => set_sock_handler_data [] (set_sock_thread (Some Running) c)) ;;
    modify (set_keepalive_thread (Some Running)) ;;
    logging_info "Connected" ;;
    ret JNull
  else
    logging_error "Could not connect to core." ;;
    ret JNull.

(** The tail shared by [logon], [status_get] and [BaseMethods._send]
    once the command is built: [report] is [logging.error] for the first
    two and [print] for the third. *)
Definition submit_and_await (report : string -> M core unit) (cmd : json)
  : M core json :=
  alive <- sock_thread_is_alive ;;
  if alive then
    msg_queue_put cmd ;;
    response_is_ready_wait ;;
    cmd_id <- getitem_id cmd ;;
    parsed <- response_queue_get ;;
    parse_response cmd_id parsed
  else
    report
      "Request could not be sent. There is no active connection to the core." ;;
    ret JNull.

(** [Core.logon]. *)
Definition logon (user password : json) : M core json :=
  cmd <- _build_cmd "Logon"
           (JDict [("User"%string, user); ("Password"%string, password)]) ;;
  submit_and_await logging_error cmd.

(** [Core.status_get]. *)
Definition status_get : M core json :=
  cmd <- _build_cmd "StatusGet" JNull ;;
  submit_and_await logging_error cmd.

(** [BaseMethods._send], the call operation of the method wrappers. *)
Definition _send (method : string) (params : json) : M core json :=
  cmd <- _build_cmd method params ;;
  submit_and_await print cmd.

(** [self.sock_thread.join()].  While the caller waits the other threads
    run: [script] lists their events, consumed until the thread has
    ended.  The caller stays parked when the script ends first. *)
Fixpoint sock_thread_join (script : list event) : M core unit :=
  fun c =>
    match sock_thread c with
    | None =>
        (Raised (AttributeError "'NoneType' object has no attribute 'join'"), c)
    | Some Created =>
        (Raised (RuntimeError "cannot join thread before it is started"), c)
    | Some Running =>
        match script with
        | [] => (Blocked, c)
        | ev :: script' => sock_thread_join script' (step ev c)
        end
    | Some _ => (Done tt, c)
    end.

(** [self.sock.close()]. *)
Definition sock_close : M core unit :=
  c <- get ;;
  match sock c with
  | None =>
      raise (AttributeError "'NoneType' object has no attribute 'close'")
  | Some s =>
      modify (set_sock (Some {| wire := wire s; connected := connected s;
                                nonblocking := nonblocking s;
                                closed := true |}))
  end.

(** [Core.close]. *)
Definition close (script : list event) : M core json :=
  modify (set_stop_threads true) ;;
  sock_thread_join script ;;
  sock_close ;;
  logging_info "Closed connection." ;;
  ret JNull.
End Engine.

(** ** Frames and remainder of a buffer *)

(** The complete frames of a buffer: every segment but the last. *)
Definition frames_of (data : bytes) : list bytes :=
  removelast (split x00 data).

(** The bytes behind the last delimiter. *)
Definition rest_of (data : bytes) : bytes := last (split x00 data) [].

(** ** Sample instances and states *)

(** A decoder for ASCII input. *)
Definition ascii_decode (data : bytes) : option string :=
  if forallb (fun x => Byte.to_nat x <? 128) data
  then Some (string_of_list_byte data)
  else None.

(** The answer of the peer to a first [StatusGet]. *)
Definition sample_result : json := JDict [("State", JStr "Active")].

Definition sample_response_text : string :=
  json_dumps (JDict [("jsonrpc", JStr "2.0"); ("result", sample_result);
                     ("id", JInt 1)]).

(** A parser that knows this one answer. *)
Definition sample_parse_json (text : string) : option parsed_json :=
  if String.eqb text sample_response_text
  then Some (Ok sample_result (IdInt 1))
  else None.

(** A core right after a successful [connect]. *)
Definition connected_core : core := snd (connect true init).

(** A core after [connect] and [close]. *)
Definition closed_core : core :=
  snd (close ascii_decode sample_parse_json [IoWouldBlock] connected_core).

(** The message of the three call operations when the worker is not alive. *)
Definition not_sent_message : string :=
  "Request could not be sent. There is no active connection to the core.".

(** ** Induction on JSON values *)

Section JsonInduction.
Variable P : json -> Prop.
Hypothesis HNull : P JNull.
Hypothesis HBool : forall v, P (JBool v).
Hypothesis HInt : forall n, P (JInt n).
Hypothesis HStr : forall s, P (JStr s).
Hypothesis HList : forall items, Forall P items -> P (JList items).
Hypothesis HDict :
  forall items, Forall (fun kv => P (snd kv)) items -> P (JDict items).

Fixpoint json_induction (j : json) : P j :=
  match j with
  | JNull => HNull
  | JBool v => HBool v
  | JInt n => HInt n
  | JStr s => HStr s
  | JList items =>
      HList
        ((fix all (l : list json) : Forall P l :=
            match l with
            | [] => Forall_nil P
            | x :: l' => Forall_cons x (json_induction x) (all l')
            end) items)
  | JDict items =>
      HDict
        ((fix all (l : list (string * json))
           : Forall (fun kv => P (snd kv)) l :=
            match l with
            | [] => Forall_nil _
            | (k, v) :: l' =>
                Forall_cons (P := fun kv => P (snd kv)) (k, v)
                            (json_induction v) (all l')
            end) items)
  end.
End JsonInduction.

(** No character of the string is the NUL character. *)
Fixpoint nul_free (s : string) : bool :=
  match s with
  | EmptyString => true
  | String c s' => negb (Ascii.eqb c Ascii.zero) && nul_free s'
  end.

(** A string between double quotes. *)
Definition quoted (s : string) : string :=
  String quote (s ++ String quote "")%string.

(** The text [json.dumps] gives for the heartbeat dict. *)
Definition noop_text : string :=
  ("{" ++ quoted "jsonrpc" ++ ": " ++ quoted "2.0" ++ ", "
       ++ quoted "method" ++ ": " ++ quoted "NoOp" ++ ", "
       ++ quoted "params" ++ ": {}}")%string.

(** The marker of the unsolicited status messages, line 68. *)
Definition engine_status : bytes := lit "EngineStatus".

(** A correlated answer to request 1 whose result names a control
    EngineStatus. *)
Definition engine_status_reply : bytes :=
  encode_utf8
    (json_dumps (JDict [("jsonrpc", JStr "2.0");
                        ("result", JDict [("Name", JStr "EngineStatus")]);
                        ("id", JInt 1)])).

(** A connected core whose caller has submitted request 1 and is parked on
    the response-ready signal. *)
Definition awaiting_core : core :=
  step ascii_decode sample_parse_json IoWouldBlock
       (snd (status_get connected_core)).

(** ** Observations on the steps of the system *)

(** The socket exists and was not closed. *)
Definition sock_open (c : core) : bool :=
  match sock c with
  | Some s => negb (closed s)
  | None => false
  end.

Definition sock_thread_running (c : core) : bool :=
  match sock_thread c with
  | Some t => is_alive t
  | None => false
  end.

Definition keepalive_thread_running (c : core) : bool :=
  match keepalive_thread c with
  | Some t => is_alive t
  | None => false
  end.

(** What is written and what is queued to be written, as one stream. *)
Definition pending (c : core) : bytes :=
  written c ++ concat (map wire_bytes (msg_queue c)).

(** The turn of keepalive that finds the countdown at zero (line 92). *)
Definition expiry_tick (ev : event) (c : core) : bool :=
  match ev with
  | Tick =>
      keepalive_thread_running c && keepalive_continues c
      && (noop_timer c =? 0)%Z
  | _ => false
  end.

(** The turn of sock_handler that writes a queued request (lines 77-81). *)
Definition sends_request (ev : event) (c : core) : bool :=
  match ev with
  | IoWouldBlock =>
      sock_thread_running c && sock_handler_continues c && sock_open c
      && match msg_queue c with [] => false | _ :: _ => true end
  | _ => false
  end.

(** The turn of sock_handler that writes the heartbeat (lines 82-87). *)
Definition sends_heartbeat (ev : event) (c : core) : bool :=
  match ev with
  | IoWouldBlock =>
      sock_thread_running c && sock_handler_continues c && sock_open c
      && match msg_queue c with [] => true | _ :: _ => false end
      && keepalive_event c
  | _ => false
  end.

Definition is_no_op_call (ev : event) : bool :=
  match ev with
  | CallerNoOp => true
  | _ => false
  end.

Section HeartbeatTraces.
Variable decode : bytes -> option string.
Variable parse_json : string -> option parsed_json.

(** Every heartbeat of the execution [tr] from [c] is written while the
    system is armed.  A tick that finds the countdown at zero arms, a
    heartbeat disarms, and so does a written request when
    [traffic_disarms] is set: with it the check says that every heartbeat
    follows an expiry of the countdown with no application traffic in
    between, without it that every heartbeat follows an expiry. *)
Fixpoint pings_follow_expiry (traffic_disarms armed : bool)
         (tr : list event) (c : core) : bool :=
  match tr with
  | [] => true
  | ev :: tr' =>
      let armed' :=
        if expiry_tick ev c then true
        else if sends_heartbeat ev c then false
        else if traffic_disarms && sends_request ev c then false
        else armed in
      (if sends_heartbeat ev c then armed else true)
      && pings_follow_expiry traffic_disarms armed' tr'
           (step decode parse_json ev c)
  end.

(** The countdowns the execution passes through, the first included. *)
Fixpoint countdowns (tr : list event) (c : core) : list Z :=
  noop_timer c ::
  match tr with
  | [] => []
  | ev :: tr' => countdowns tr' (step decode parse_json ev c)
  end.
End HeartbeatTraces.

(** A request as [status_get] builds it first on a fresh connection. *)
Definition sample_cmd : json :=
  JDict [("jsonrpc", JStr "2.0"); ("method", JStr "StatusGet");
         ("id", JInt 1)].

(** Thirty quiet ticks, then a request is queued and written, then the
    next idle turn of the worker. *)
Definition chatty_trace : list event :=
  repeat Tick 30 ++ [CallerPut sample_cmd; IoWouldBlock; IoWouldBlock].

(** A caller asks for a ping by hand, then the next idle turn of the
    worker. *)
Definition manual_ping_trace : list event := [CallerNoOp; IoWouldBlock].

(** A connected core with two requests queued. *)
Definition busy_core : core :=
  set_msg_queue [sample_cmd; noop_cmd] connected_core.

(** The fields the frame handling of the worker does not touch: socket,
    threads, Outbound Queue, ping flag, shutdown flag and countdown. *)
Definition same_transport (c c' : core) : Prop :=
  sock c' = sock c
  /\ sock_thread c' = sock_thread c
  /\ keepalive_thread c' = keepalive_thread c
  /\ msg_queue c' = msg_queue c
  /\ keepalive_event c' = keepalive_event c
  /\ stop_threads c' = stop_threads c
  /\ noop_timer c' = noop_timer c.

(** The events of an execution that are no calls of no_op. *)
Definition no_op_free (tr : list event) : bool :=
  forallb (fun ev => negb (is_no_op_call ev)) tr.

(** Case analysis on a core given by its fields. *)
Ltac core_fields c :=
  destruct c as [sock0 sock_thread0 keepalive_thread0 msg_queue0
                   response_queue0 keepalive_event0 response_is_ready0
                   stop_threads0 noop_timer0 data0 id0 log0].

(** ** The caller behind its queued request *)

(** The dict that [_build_cmd] returns for the id [n] of the generator. *)
Definition request_dict (method : string) (params : json) (n : Z) : json :=
  JDict ([("jsonrpc", JStr "2.0"); ("method", JStr method)]
         ++ (if truthy params then [("params", params)] else [])
         ++ [("id", JInt n)]).

(** Lines 190-191, 214-215 and qrc_methods.py 16-17: what a call does
    behind [msg_queue.put(cmd)].  A caller parked on
    [response_is_ready.wait()] runs this when it is scheduled again. *)
Definition await_response (cmd : json) : M core json :=
  response_is_ready_wait ;;
  cmd_id <- getitem_id cmd ;;
  parsed <- response_queue_get ;;
  parse_response cmd_id parsed.

(** The bytes of the answer to the first [StatusGet]. *)
Definition sample_reply : bytes := encode_utf8 sample_response_text.

(** Every character of the string lies between space and tilde. *)
Fixpoint printable (s : string) : bool :=
  match s with
  | EmptyString => true
  | String c s' =>
      (32 <=? nat_of_ascii c) && (nat_of_ascii c <=? 126) && printable s'
  end.

(** The countdown is within the range the code gives it. *)
Definition countdown_in_range (c : core) : Prop :=
  (0 <= noop_timer c <= 29)%Z.

(** The worker and keepalive run on an open socket and no shutdown was
    requested. *)
Definition live (c : core) : Prop :=
  sock_thread c = Some Running /\ keepalive_thread c = Some Running
  /\ sock_open c = true /\ stop_threads c = false.

(** The thread object of the worker is missing or not alive: the guard of
    [connect], line 169. *)
Definition no_live_worker (c : core) : bool :=
  match sock_thread c with
  | None => true
  | Some t => negb (is_alive t)
  end.

(** ** The method wrappers of qrc_methods.py

    Arguments are Python values; a missing optional argument is [None]. *)

Module ControlMethods.

Definition method_start : string := "Control.".

(** [ControlMethods.get], lines 34-44. *)
Definition get (names : json) : M core json :=
  let method_name := (method_start ++ "Get")%string in
  if negb (truthy names) then
    raise (AttributeError
             "Control.Get needs a control name or a list of names.")
  else
    match names with
    | JList _ => _send method_name names
    | JStr _ => _send method_name (JList [names])
    | _ =>
        raise (ValueError
                 "Must either give one string or a list of strings as arguments.")
    end.

(** [ControlMethods.set], lines 46-54. *)
Definition set (name value ramp : json) : M core json :=
  let method_name := (method_start ++ "Set")%string in
  if negb (truthy name) || negb (truthy value) then
    raise (AttributeError
             "Control.Set needs a name and a value. Ramp is optional.")
  else if truthy ramp then
    _send method_name
          (JDict [("Name", name); ("Value", value); ("Ramp", ramp)])
  else
    _send method_name (JDict [("Name", name); ("Value", value)]).

End ControlMethods.

Module ComponentMethods.

Definition method_start : string := "Component.".

(** [ComponentMethods.get], lines 71-83. *)
Definition get (name controls : json) : M core json :=
  let method_name := (method_start ++ "Get")%string in
  if negb (truthy name) || negb (truthy controls) then
    raise (AttributeError
             "Component.Get needs a Component name and array of control values (dictionary)")
  else
    match name, controls with
    | JStr _, JList _ =>
        _send method_name (JDict [("Name", name); ("Controls", controls)])
    | _, _ =>
        raise (ValueError
                 "Component.Get needs a name (str) and an array of dictionaries with controls.")
    end.

(** [ComponentMethods.get_controls], lines 85-94. *)
Definition get_controls (name : json) : M core json :=
  if negb (truthy name) then
    raise (AttributeError
             "Component.GetControls needs a name (str) of a Component")
  else
    _send (method_start ++ "GetControls")%string (JDict [("Name", name)]).

(** [ComponentMethods.get_components], lines 96-99. *)
Definition get_components : M core json :=
  _send (method_start ++ "GetComponents")%string JNull.

(** [ComponentMethods.set], lines 101-113. *)
Definition set (name controls : json) : M core json :=
  if negb (truthy name) || negb (truthy controls) then
    raise (AttributeError
             "Component.Set needs a Component name and an array of dictionaries with controls.")
  else
    match name, controls with
    | JStr _, JList _ =>
        _send (method_start ++ "Set")%string
              (JDict [("Name", name); ("Control", controls)])
    | _, _ =>
        raise (ValueError
                 "Component.Set needs a name (str) and an array of dictionaries with controls.")
    end.

End ComponentMethods.

(** A control name and a list of control names. *)
Definition gain : json := JStr "MainGain".
Definition two_controls : json := JList [JStr "MainGain"; JStr "MainMute"].

(** A frame that is no JSON text. *)
Definition garbage : bytes := lit "not json".

(** ** Writes that the socket does not take

    [connect] makes the socket non-blocking (line 174).  When its send
    buffer is full, [sendall] raises BlockingIOError, an OSError, after
    the kernel has taken some bytes of the payload and never all of them.
    [_send_cmd] raises the exception again (lines 161-162), and since the
    worker calls [_send_cmd] inside its [except BlockingIOError] handler
    (lines 75-87), the exception leaves the loop and ends the thread. *)

(** [self.sock.sendall(payload)] on a socket that takes only [sent] bytes,
    the last byte of the payload never among them. *)
Definition sock_sendall_blocked (sent : nat) (payload : bytes)
  : M core unit :=
  c <- get ;;
  match sock c with
  | None =>
      raise (AttributeError "'NoneType' object has no attribute 'sendall'")
  | Some s =>
      if closed s then raise (OSError "Bad file descriptor")
      else
        modify (set_sock
                  (Some {| wire := wire s ++ firstn sent (removelast payload);
                           connected := connected s;
                           nonblocking := nonblocking s;
                           closed := closed s |})) ;;
        raise (OSError "BlockingIOError")
  end.

(** [Core._send_cmd] over the [sendall] of the moment. *)
Definition _send_cmd_with (sendall : bytes -> M core unit) (cmd : json)
  : M core bool :=
  sendall (wire_bytes cmd) ;;
  ret true.

(** Lines 75-87 over the [sendall] of the moment. *)
Definition on_would_block_with (sendall : bytes -> M core unit)
  : M core unit :=
  c <- get ;;
  match msg_queue c with
  | cmd :: q =>
      modify (set_msg_queue q) ;;
      sent <- _send_cmd_with sendall cmd ;;
      if sent then modify (set_noop_timer 29) else ret tt
  | [] =>
      if keepalive_event c then
        _send_cmd_with sendall noop_cmd ;;
        modify (set_keepalive_event false) ;;
        modify (set_noop_timer 29)
      else ret tt
  end.

Section Delivery.
Variable decode : bytes -> option string.
Variable parse_json : string -> option parsed_json.

(** The events of the system, with the socket named that the worker
    writes to: [Served ev] is the event [ev] on a socket that takes what
    is written, [SendBlocked sent] is the turn of sock_handler whose
    [recv] raises BlockingIOError and whose [sendall], when it comes to
    one, raises after [sent] bytes. *)
Inductive sys_event : Type :=
| Served (ev : event)
| SendBlocked (sent : nat).

Definition step_sys (ev : sys_event) (c : core) : core :=
  match ev with
  | Served ev' => step decode parse_json ev' c
  | SendBlocked sent =>
      sock_handler_turn (on_would_block_with (sock_sendall_blocked sent)) c
  end.




(** *** The frames handed to [sendall], by the guards of the worker

    A frame of the log is a command with the mark of a queued request
    ([true]) or of the heartbeat ([false]). *)
Definition step_log (ev : event) (c : core) : list (bool * json) :=
  if sends_request ev c then
    match msg_queue c with
    | cmd :: _ => [(true, cmd)]
    | [] => []
    end
  else if sends_heartbeat ev c then [(false, noop_cmd)]
  else [].

Fixpoint wire_log (tr : list event) (c : core) : list (bool * json) :=
  match tr with
  | [] => []
  | ev :: tr' => step_log ev c ++ wire_log tr' (step decode parse_json ev c)
  end.
End Delivery.

(** The requests of a log, in its order. *)
Definition requests_of (frames : list (bool * json)) : list json :=
  map snd (filter fst frames).

(** The bytes of a log, in its order. *)
Definition bytes_of (frames : list (bool * json)) : bytes :=
  concat (map (fun f => wire_bytes (snd f)) frames).

(** The requests that callers queue in an execution. *)
Definition puts (tr : list event) : list json :=
  flat_map (fun ev => match ev with CallerPut cmd => [cmd] | _ => [] end) tr.

(** A request queued behind the two of [busy_core] while close waits. *)
Definition late_cmd : json :=
  JDict [("jsonrpc", JStr "2.0"); ("method", JStr "StatusGet");
         ("id", JInt 2)].

(** * Properties *)

(** ** The monad *)

Lemma bind_ext {S A B} (c : M S A) (k k' : A -> M S B) st :
  (forall a st', k a st' = k' a st') -> bind c k st = bind c k' st.
Proof.
  intros Hk. unfold bind. destruct (c st) as [[a| e |] st']; auto.
Qed.

Lemma bind_assoc {S A B C} (c : M S A) (k : A -> M S B) (h : B -> M S C) st :
  bind (bind c k) h st = bind c (fun a => bind (k a) h) st.
Proof.
  unfold bind. destruct (c st) as [[a| e |] st']; reflexivity.
Qed.

(** ** Splitting and counting *)

Lemma byte_eqb_refl x : Byte.eqb x x = true.
Proof. apply Byte.byte_dec_lb. reflexivity. Qed.

Lemma byte_eqb_sym x y : Byte.eqb x y = Byte.eqb y x.
Proof.
  destruct (Byte.eqb x y) eqn:E.
  - apply Byte.byte_dec_bl in E. subst. symmetry. apply byte_eqb_refl.
  - destruct (Byte.eqb y x) eqn:E'; [|reflexivity].
    apply Byte.byte_dec_bl in E'. subst. rewrite byte_eqb_refl in E.
    discriminate.
Qed.

(** A byte that the scan of a string does not meet is not in it. *)
Lemma not_in_by_scan x data :
  forallb (fun y => negb (Byte.eqb y x)) data = true -> ~ In x data.
Proof.
  induction data as [|y data IH]; simpl; [tauto|].
  rewrite andb_true_iff, negb_true_iff. intros [Hy Hd] [H|H].
  - subst y. rewrite byte_eqb_refl in Hy. discriminate.
  - exact (IH Hd H).
Qed.

Lemma split_not_nil sep data : split sep data <> [].
Proof.
  destruct data as [|x data]; simpl; [discriminate|].
  destruct (Byte.eqb x sep); [discriminate|].
  destruct (split sep data); discriminate.
Qed.

Lemma split_cons_sep sep data : split sep (sep :: data) = [] :: split sep data.
Proof. simpl. rewrite byte_eqb_refl. reflexivity. Qed.

Lemma split_cons_other sep x data :
  x <> sep ->
  split sep (x :: data) =
  (x :: hd [] (split sep data)) :: tl (split sep data).
Proof.
  intros Hx. simpl.
  destruct (Byte.eqb x sep) eqn:E.
  - apply Byte.byte_dec_bl in E. contradiction.
  - destruct (split sep data) eqn:Es; [|reflexivity].
    exfalso. exact (split_not_nil _ _ Es).
Qed.

(** [data.count(b'\00')] is one less than the number of segments. *)
Lemma count_split sep data :
  length (split sep data) = S (count data [sep]).
Proof.
  unfold count. induction data as [|x data IH]; [reflexivity|].
  cbn [count_from starts_with length Nat.pred].
  rewrite andb_true_r, byte_eqb_sym.
  destruct (Byte.eqb x sep) eqn:E.
  - apply Byte.byte_dec_bl in E. subst x.
    rewrite split_cons_sep. simpl. rewrite IH. reflexivity.
  - rewrite split_cons_other by (apply Byte.eqb_false; exact E).
    simpl. rewrite <- IH.
    destruct (split sep data) eqn:Es; [|reflexivity].
    exfalso. exact (split_not_nil _ _ Es).
Qed.

Lemma split_no_sep sep data : ~ In sep data -> split sep data = [data].
Proof.
  induction data as [|x data IH]; intros Hn; [reflexivity|].
  rewrite split_cons_other by (intros ->; apply Hn; left; reflexivity).
  rewrite IH by (intros H; apply Hn; right; exact H).
  reflexivity.
Qed.

Lemma split_single sep data seg : split sep data = [seg] -> seg = data.
Proof.
  revert seg. induction data as [|x data IH]; intros seg H.
  - simpl in H. congruence.
  - simpl in H. destruct (Byte.eqb x sep).
    + exfalso. injection H as _ H. exact (split_not_nil _ _ H).
    + destruct (split sep data) as [|s ss] eqn:Es;
        [exfalso; exact (split_not_nil _ _ Es)|].
      injection H as <- ->. f_equal. apply IH. reflexivity.
Qed.

(** The last segment holds no delimiter. *)
Lemma last_split_no_sep sep data : ~ In sep (last (split sep data) []).
Proof.
  induction data as [|x data IH]; [simpl; tauto|].
  destruct (Byte.byte_eq_dec x sep) as [->|Hx].
  - rewrite split_cons_sep.
    destruct (split sep data) eqn:Es; [exfalso; exact (split_not_nil _ _ Es)|].
    exact IH.
  - rewrite split_cons_other by exact Hx.
    destruct (split sep data) as [|s ss] eqn:Es;
      [exfalso; exact (split_not_nil _ _ Es)|].
    destruct ss as [|s' ss].
    + simpl in *. intros [H|H]; [congruence|tauto].
    + exact IH.
Qed.

(** Splitting a concatenation: the last segment of the first part is glued
    to the first segment of the second. *)
Lemma split_app sep a c :
  split sep (a ++ c) =
  removelast (split sep a) ++
  (last (split sep a) [] ++ hd [] (split sep c)) :: tl (split sep c).
Proof.
  induction a as [|x a IH].
  - simpl. destruct (split sep c) eqn:Es; [|reflexivity].
    exfalso. exact (split_not_nil _ _ Es).
  - destruct (Byte.byte_eq_dec x sep) as [->|Hx].
    + rewrite <- app_comm_cons, !split_cons_sep, IH.
      destruct (split sep a) eqn:Es; [exfalso; exact (split_not_nil _ _ Es)|].
      reflexivity.
    + rewrite <- app_comm_cons, !split_cons_other by exact Hx.
      rewrite IH.
      destruct (split sep a) as [|s ss] eqn:Es;
        [exfalso; exact (split_not_nil _ _ Es)|].
      destruct ss as [|s' ss]; reflexivity.
Qed.

Lemma split_removelast_last sep data :
  split sep data = removelast (split sep data) ++ [last (split sep data) []].
Proof. apply app_removelast_last, split_not_nil. Qed.

Lemma frames_of_app a c :
  frames_of (a ++ c) = frames_of a ++ frames_of (rest_of a ++ c).
Proof.
  unfold frames_of, rest_of.
  rewrite (split_app x00 (last (split x00 a) []) c).
  rewrite (split_no_sep _ _ (last_split_no_sep x00 a)). simpl.
  rewrite split_app.
  apply removelast_app. discriminate.
Qed.

Lemma rest_of_app a c : rest_of (a ++ c) = rest_of (rest_of a ++ c).
Proof.
  unfold rest_of.
  rewrite (split_app x00 (last (split x00 a) []) c).
  rewrite (split_no_sep _ _ (last_split_no_sep x00 a)). simpl.
  rewrite split_app.
  generalize (removelast (split x00 a)) as l. intros l.
  induction l as [|y l IH]; [reflexivity|].
  simpl. destruct (l ++ _) eqn:E; [|exact IH].
  destruct l; discriminate.
Qed.

Lemma frames_of_no_sep data : ~ In x00 data -> frames_of data = [].
Proof. intros H. unfold frames_of. rewrite split_no_sep by exact H. reflexivity. Qed.

Lemma rest_of_no_sep data : ~ In x00 data -> rest_of data = data.
Proof. intros H. unfold rest_of. rewrite split_no_sep by exact H. reflexivity. Qed.

Lemma split_delimited frames rest :
  Forall (fun f => ~ In x00 f) frames -> ~ In x00 rest ->
  split x00 (delimited frames ++ rest) = frames ++ [rest].
Proof.
  intros Hf Hr. induction Hf as [|f frames Hf _ IH].
  - simpl. apply split_no_sep. exact Hr.
  - unfold delimited in *. simpl. rewrite <- !app_assoc.
    rewrite split_app, (split_no_sep _ _ Hf). simpl.
    rewrite app_nil_r, IH. reflexivity.
Qed.

(** ** The loop over the segments *)

Section FrameFacts.
Variable S : Type.
Variable handle : bytes -> M S unit.

(** The [for] loop handles every segment but the last and leaves the
    last one in the buffer. *)
Lemma for_enumerate_spec segs :
  forall n i data st,
    i <= n -> length segs = Datatypes.S (n - i) ->
    for_enumerate handle n i segs data st =
    handle_frames handle (removelast segs) (last segs []) st.
Proof.
  induction segs as [|r segs IH]; intros n i data st Hi Hlen;
    [discriminate|].
  cbn [for_enumerate].
  destruct (Nat.eqb_spec i n) as [->|Hne].
  - rewrite Nat.sub_diag in Hlen.
    destruct segs; [reflexivity|discriminate].
  - destruct segs as [|r' segs'] eqn:Es.
    + simpl in Hlen. lia.
    + rewrite <- Es in *.
      assert (Hrl : removelast (r :: segs) = r :: removelast segs)
        by (rewrite Es; reflexivity).
      assert (Hl : last (r :: segs) [] = last segs [])
        by (rewrite Es; reflexivity).
      rewrite Hrl, Hl. cbn [handle_frames].
      apply bind_ext. intros _ st'.
      apply IH; [lia|]. simpl in Hlen. lia.
Qed.

(** One read handles the complete frames of the extended buffer and
    keeps what is behind the last delimiter. *)
Lemma recv_chunk_spec chunk data st :
  recv_chunk handle chunk data st =
  handle_frames handle (frames_of (data ++ chunk))
                (rest_of (data ++ chunk)) st.
Proof.
  unfold recv_chunk, frames_of, rest_of.
  pose proof (count_split x00 (data ++ chunk)) as Hc.
  destruct (Nat.ltb_spec 0 (count (data ++ chunk) [x00])) as [Hpos|Hz].
  - apply for_enumerate_spec; lia.
  - destruct (split x00 (data ++ chunk)) as [|seg [|seg' segs]] eqn:Es;
      simpl in Hc; try lia.
    apply split_single in Es. subst seg. reflexivity.
Qed.

Lemma handle_frames_then {A} frames rest (k : bytes -> M S A) st :
  bind (handle_frames handle frames rest) k st =
  match handle_frames handle frames rest st with
  | (Done r, st') => k r st'
  | (Raised e, st') => (Raised e, st')
  | (Blocked, st') => (Blocked, st')
  end.
Proof. reflexivity. Qed.

(** Handling [frames] and going on with a computation that handles
    [frames'] is handling both lists in a row. *)
Lemma handle_frames_app frames frames' rest rest' (k : bytes -> M S bytes) :
  (forall st, k rest st = handle_frames handle frames' rest' st) ->
  forall st,
    bind (handle_frames handle frames rest) k st =
    handle_frames handle (frames ++ frames') rest' st.
Proof.
  intros Hk. induction frames as [|f frames IH]; intros st.
  - simpl. unfold bind, ret. apply Hk.
  - cbn [handle_frames app]. rewrite bind_assoc.
    apply bind_ext. intros _ st'. apply IH.
Qed.

(** Any number of reads handle the complete frames of the whole stream,
    in order, whatever the cuts between the reads. *)
Lemma recv_chunks_spec chunks :
  forall data st,
    ~ In x00 data ->
    recv_chunks handle chunks data st =
    handle_frames handle (frames_of (data ++ concat chunks))
                  (rest_of (data ++ concat chunks)) st.
Proof.
  induction chunks as [|chunk chunks IH]; intros data st Hd.
  - simpl. rewrite app_nil_r, frames_of_no_sep, rest_of_no_sep by exact Hd.
    reflexivity.
  - cbn [recv_chunks concat].
    transitivity
      (bind (handle_frames handle (frames_of (data ++ chunk))
                           (rest_of (data ++ chunk)))
            (fun d => recv_chunks handle chunks d) st).
    + unfold bind. rewrite recv_chunk_spec. reflexivity.
    + rewrite app_assoc.
      rewrite (frames_of_app (data ++ chunk) (concat chunks)).
      rewrite (rest_of_app (data ++ chunk) (concat chunks)).
      apply handle_frames_app.
      intros st'. apply IH. apply last_split_no_sep.
Qed.

(** Two ways of cutting one stream into reads have the same effect. *)
Lemma chunking_irrelevant chunks chunks' st :
  concat chunks = concat chunks' ->
  recv_chunks handle chunks [] st = recv_chunks handle chunks' [] st.
Proof.
  intros H. rewrite !recv_chunks_spec by (simpl; tauto).
  rewrite H. reflexivity.
Qed.

(** C1.  When the reads of the worker, concatenated, deliver the frames
    [frames], each followed by its 0x00 delimiter, and then the
    delimiter-free bytes [rest], iterating the extraction step over the
    reads hands exactly these frames, byte for byte and in order, to the
    loop body and leaves [rest] in the buffer: the result does not depend
    on where the stream is cut into reads. *)
Theorem frames_reassembled frames rest chunks st :
  Forall (fun f => ~ In x00 f) frames ->
  ~ In x00 rest ->
  concat chunks = delimited frames ++ rest ->
  recv_chunks handle chunks [] st = handle_frames handle frames rest st.
Proof.
  intros Hf Hr Hs.
  rewrite recv_chunks_spec by (simpl; tauto).
  simpl. rewrite Hs. unfold frames_of, rest_of.
  rewrite split_delimited by assumption.
  rewrite removelast_last, last_last. reflexivity.
Qed.
End FrameFacts.

Lemma frames_reassembled_witness :
  recv_chunks record_frame
    [lit "a"; lit "b" ++ [x00] ++ lit "c"; lit "d"; [x00]; []; lit "e"] [] []
  = handle_frames record_frame [lit "ab"; lit "cd"] (lit "e") [].
Proof.
  apply frames_reassembled.
  - repeat constructor; vm_compute; intuition discriminate.
  - vm_compute; intuition discriminate.
  - reflexivity.
Defined.

(** ** The error translator *)

Lemma parse_error_table_hit :
  Forall (fun entry => _parse_error (fst entry)
                       = error_record (snd entry) (fst entry)) error_table.
Proof. repeat constructor. Qed.

Lemma parse_error_miss code :
  ~ In code documented_codes -> _parse_error code = JNull.
Proof.
  intros Hn. unfold _parse_error.
  repeat match goal with
         | |- (if (code =? ?k)%Z then _ else _) = _ =>
             destruct (Z.eqb_spec code k) as [->|_];
             [exfalso; apply Hn; vm_compute; tauto|]
         end.
  reflexivity.
Qed.

(** C2.  For every code of the table the translator returns the record
    with the message of that code and the code itself.  For a code outside
    the table no case of the [match] applies and the call returns [None]:
    no record and no code, for 999 in particular. *)
Theorem parse_error_table_and_default :
  (forall code msg,
      In (code, msg) error_table -> _parse_error code = error_record msg code)
  /\ (forall code, ~ In code documented_codes -> _parse_error code = JNull)
  /\ _parse_error 999 = JNull.
Proof.
  split; [|split].
  - intros code msg Hin.
    pose proof parse_error_table_hit as H.
    rewrite Forall_forall in H. exact (H _ Hin).
  - exact parse_error_miss.
  - reflexivity.
Qed.

Lemma parse_error_table_and_default_witness :
  _parse_error 8 = error_record "Unknown control" 8
  /\ _parse_error 12345 = JNull.
Proof.
  destruct parse_error_table_and_default as [Hhit [Hmiss _]].
  split.
  - apply Hhit. vm_compute. tauto.
  - apply Hmiss. vm_compute. intuition discriminate.
Defined.

(** ** Correlation: parse_response *)

Lemma parse_response_ok_match cmd_id result id st :
  rpc_id_eqb id cmd_id = true ->
  parse_response cmd_id (Ok result id) st
  = (Done result, set_response_is_ready false st).
Proof. intros H. unfold parse_response. rewrite H. reflexivity. Qed.

Lemma parse_response_ok_mismatch cmd_id result id st :
  rpc_id_eqb id cmd_id = false ->
  parse_response cmd_id (Ok result id) st
  = (Raised (LookupError "Response has incorrect ID."), st).
Proof. intros H. unfold parse_response. rewrite H. reflexivity. Qed.

Lemma parse_response_error cmd_id code message data id st :
  parse_response cmd_id (Error code message data id) st
  = (Done (_parse_error code),
     set_log (log st ++ [LogErrorCode code]) st).
Proof. reflexivity. Qed.

Lemma rpc_id_eqb_eq x y : rpc_id_eqb x y = true <-> x = y.
Proof.
  destruct x, y; simpl; split; intros H; try discriminate; try reflexivity.
  - apply Z.eqb_eq in H. congruence.
  - injection H as ->. apply Z.eqb_refl.
  - apply String.eqb_eq in H. congruence.
  - injection H as ->. apply String.eqb_refl.
Qed.

(** C4.  A result envelope is checked against the request id: a different
    id raises the LookupError of the source, the same id clears the
    response-ready signal and returns the result.  An error envelope is
    not checked: whatever its id, the call returns the translated error
    and raises nothing, as for request id 1 and an error envelope with
    id 2. *)
Theorem parse_response_id_check :
  (forall cmd_id result id st,
      id <> cmd_id ->
      fst (parse_response cmd_id (Ok result id) st)
      = Raised (LookupError "Response has incorrect ID."))
  /\ (forall cmd_id result st,
         parse_response cmd_id (Ok result cmd_id) st
         = (Done result, set_response_is_ready false st))
  /\ (forall cmd_id code message data id st,
         fst (parse_response cmd_id (Error code message data id) st)
         = Done (_parse_error code))
  /\ fst (parse_response (IdInt 1)
            (Error 8 "Unknown control" JNull (IdInt 2)) connected_core)
     = Done (error_record "Unknown control" 8).
Proof.
  repeat split.
  - intros cmd_id result id st Hne.
    rewrite parse_response_ok_mismatch; [reflexivity|].
    destruct (rpc_id_eqb id cmd_id) eqn:E; [|reflexivity].
    apply rpc_id_eqb_eq in E. contradiction.
  - intros cmd_id result st. apply parse_response_ok_match.
    apply rpc_id_eqb_eq. reflexivity.
Qed.

Lemma parse_response_id_check_witness :
  fst (parse_response (IdInt 1) (Ok sample_result (IdInt 2)) connected_core)
  = Raised (LookupError "Response has incorrect ID.").
Proof.
  destruct parse_response_id_check as [H _].
  apply H. discriminate.
Defined.

(** C10.  On an error envelope parse_response returns the translated
    error as a value and leaves every field of the core but the log as it
    was, the response-ready signal included; on a result envelope with the
    request id it lowers the signal.  So after a response that was
    signalled the signal is still up when the response was an error and
    down when it was a result, and a call that lowers a raised signal was
    given a result envelope with the request id. *)
Theorem error_response_leaves_signal cmd_id code message data id result st :
  response_is_ready st = true ->
  let after_error := parse_response cmd_id (Error code message data id) st in
  let after_result := parse_response cmd_id (Ok result cmd_id) st in
  fst after_error = Done (_parse_error code)
  /\ response_is_ready (snd after_error) = true
  /\ fst after_result = Done result
  /\ response_is_ready (snd after_result) = false
  /\ response_is_ready (snd after_error)
     <> response_is_ready (snd after_result)
  /\ (forall parsed,
         response_is_ready (snd (parse_response cmd_id parsed st)) = false ->
         exists result', parsed = Ok result' cmd_id).
Proof.
  intros Hready after_error after_result.
  subst after_error after_result.
  rewrite parse_response_error.
  rewrite parse_response_ok_match by (apply rpc_id_eqb_eq; reflexivity).
  simpl. rewrite Hready.
  repeat split; try discriminate.
  intros parsed Hlow.
  destruct parsed as [result' id'|code' message' data' id'|].
  - destruct (rpc_id_eqb id' cmd_id) eqn:E.
    + apply rpc_id_eqb_eq in E. subst id'. exists result'. reflexivity.
    + rewrite parse_response_ok_mismatch in Hlow by exact E.
      simpl in Hlow. congruence.
  - rewrite parse_response_error in Hlow. simpl in Hlow. congruence.
  - simpl in Hlow. congruence.
Qed.

Lemma error_response_leaves_signal_witness :
  response_is_ready
    (snd (parse_response (IdInt 1) (Error 8 "Unknown control" JNull (IdInt 1))
            (set_response_is_ready true connected_core))) = true.
Proof.
  pose proof (@error_response_leaves_signal (IdInt 1) 8 "Unknown control"
                JNull (IdInt 1) sample_result
                (set_response_is_ready true connected_core) eq_refl) as H.
  cbv zeta in H. exact (proj1 (proj2 H)).
Defined.

(** ** Calls without a running worker *)

Lemma submit_and_await_not_alive report cmd st t :
  sock_thread st = Some t -> is_alive t = false ->
  submit_and_await report cmd st
  = bind (report not_sent_message) (fun _ => ret JNull) st.
Proof.
  intros Ht Ha. unfold submit_and_await, sock_thread_is_alive, bind at 1.
  unfold bind at 1. unfold get. rewrite Ht. unfold ret at 1. rewrite Ha.
  reflexivity.
Qed.

(** Before the first connect there is no thread object: the test itself
    raises. *)
Lemma submit_and_await_no_thread report cmd st :
  sock_thread st = None ->
  submit_and_await report cmd st
  = (Raised (AttributeError "'NoneType' object has no attribute 'is_alive'"),
     st).
Proof.
  intros Ht. unfold submit_and_await, sock_thread_is_alive, bind at 1.
  unfold bind at 1. unfold get. rewrite Ht. reflexivity.
Qed.

(** The claim as the specification words it fails on a core whose worker
    has ended: the call does not fail, it returns [None]. *)
Lemma call_on_closed_core_does_not_fail :
  sock_thread closed_core = Some Finished
  /\ fst (status_get closed_core) = Done JNull
  /\ fst (_send "Control.Get" (JList [JStr "gain"]) closed_core) = Done JNull
  /\ ~ fails (fst (status_get closed_core))
  /\ ~ fails (fst (_send "Control.Get" (JList [JStr "gain"]) closed_core)).
Proof.
  repeat split; try reflexivity; intros [e H]; vm_compute in H; discriminate.
Qed.

(** C3 (amended).  When the thread object of the I/O loop exists and is
    not alive, [_send], [status_get] and [logon] return [None] at once:
    nothing is raised, the caller is not parked, the Outbound Queue and
    every other field are as before, except that the id generator has
    handed out one id and the message that the request could not be sent
    was printed ([_send]) or logged as an error ([status_get], [logon]). *)
Theorem call_without_worker_returns_none st t :
  sock_thread st = Some t -> is_alive t = false ->
  let st' := set_id_generator (id_generator st + 1)%Z st in
  (forall method params,
      _send method params st
      = (Done JNull, set_log (log st ++ [Printed not_sent_message]) st'))
  /\ status_get st
     = (Done JNull, set_log (log st ++ [LogError not_sent_message]) st')
  /\ (forall user password,
         logon user password st
         = (Done JNull, set_log (log st ++ [LogError not_sent_message]) st'))
  /\ msg_queue st' = msg_queue st.
Proof.
  intros Ht Ha st'.
  assert (Hs : forall report cmd,
             submit_and_await report cmd st'
             = bind (report not_sent_message) (fun _ => ret JNull) st')
    by (intros; apply submit_and_await_not_alive with (t := t); assumption).
  repeat split; intros;
    unfold _send, status_get, logon, _build_cmd, bind at 1;
    unfold bind at 1; unfold get; unfold bind at 1; unfold modify at 1;
    unfold ret at 1; fold st'; rewrite Hs; reflexivity.
Qed.

Lemma call_without_worker_returns_none_witness :
  status_get closed_core
  = (Done JNull,
     set_log (log closed_core ++ [LogError not_sent_message])
             (set_id_generator (id_generator closed_core + 1)%Z closed_core)).
Proof.
  exact (proj1 (proj2 (@call_without_worker_returns_none
                         closed_core Finished eq_refl eq_refl))).
Defined.

(** ** connect on a live connection *)

(** The claim as the specification words it fails on a connected core:
    the second connect does not fail, it returns [None]. *)
Lemma connect_on_connected_core_does_not_fail :
  sock_thread connected_core = Some Running
  /\ fst (connect true connected_core) = Done JNull
  /\ ~ fails (fst (connect true connected_core)).
Proof.
  repeat split; try reflexivity. intros [e H]. vm_compute in H. discriminate.
Qed.

(** C7 (amended).  While the I/O loop worker is alive, connect returns
    [None] and raises nothing; it logs that it is connecting and then the
    error that it could not connect, and leaves every other field of the
    core (socket, threads, queues, flags, countdown) as it was. *)
Theorem connect_while_alive_only_logs reachable st t :
  sock_thread st = Some t -> is_alive t = true ->
  connect reachable st
  = (Done JNull,
     set_log (log st ++ [LogInfo "Connecting to Core...";
                         LogError "Could not connect to core."]) st).
Proof.
  intros Ht Ha. unfold connect, logging_info, logging_error, emit.
  unfold bind at 1. unfold modify at 1. unfold bind at 1. unfold get.
  cbn [sock_thread set_log]. rewrite Ht, Ha. cbn [negb].
  unfold bind, modify, ret. cbn [log set_log]. rewrite <- app_assoc.
  reflexivity.
Qed.

Lemma connect_while_alive_only_logs_witness :
  connect true connected_core
  = (Done JNull,
     set_log (log connected_core ++ [LogInfo "Connecting to Core...";
                                     LogError "Could not connect to core."])
             connected_core).
Proof.
  exact (@connect_while_alive_only_logs true connected_core Running
           eq_refl eq_refl).
Defined.

(** ** Classification of frames *)

Lemma starts_with_prefix sub :
  forall data,
    starts_with sub data = true <-> exists post, data = sub ++ post.
Proof.
  induction sub as [|x sub IH]; intros data.
  - simpl. split; [intros _; exists data; reflexivity|reflexivity].
  - destruct data as [|y data]; simpl.
    + split; [discriminate|intros [post H]; discriminate].
    + rewrite andb_true_iff, IH. split.
      * intros [Hxy [post ->]]. apply Byte.byte_dec_bl in Hxy. subst y.
        exists post. reflexivity.
      * intros [post H]. injection H as -> ->.
        split; [apply byte_eqb_refl|exists post; reflexivity].
Qed.

(** [response.count(sub) > 0] says that [sub] occurs in [response]. *)
Lemma count_positive_iff sub data :
  0 < count data sub <-> exists pre post, data = pre ++ sub ++ post.
Proof.
  unfold count. split.
  - induction data as [|x data IH]; intros H.
    + simpl in H. destruct sub; [|lia].
      exists [], []. reflexivity.
    + cbn [count_from] in H.
      destruct (starts_with sub (x :: data)) eqn:E.
      * apply starts_with_prefix in E. destruct E as [post E].
        exists [], post. exact E.
      * destruct (IH H) as [pre [post ->]].
        exists (x :: pre), post. reflexivity.
  - intros [pre [post ->]]. induction pre as [|x pre IH].
    + simpl. destruct (sub ++ post) as [|y rest] eqn:E.
      * destruct sub; [simpl; lia|discriminate].
      * cbn [count_from].
        assert (Hs : starts_with sub (y :: rest) = true)
          by (apply starts_with_prefix; exists post; symmetry; exact E).
        rewrite Hs. lia.
    + cbn [app count_from].
      destruct (starts_with sub (x :: pre ++ sub ++ post)); [lia|exact IH].
Qed.

Section DispatchFacts.
Variable decode : bytes -> option string.
Variable parse_json : string -> option parsed_json.

(** A frame with the marker is decoded and logged; the response queue
    and the signal are not touched, also when decoding fails. *)
Lemma dispatch_event response st :
  0 < count response engine_status ->
  dispatch decode parse_json response st
  = match decode response with
    | Some text => (Done tt, set_log (log st ++ [LogInfo text]) st)
    | None => (Raised (ValueError "UnicodeDecodeError"), st)
    end.
Proof.
  intros H. unfold dispatch. fold engine_status.
  apply Nat.ltb_lt in H. rewrite H.
  unfold bind, response_decode. destruct (decode response); reflexivity.
Qed.

(** A frame without the marker that decodes and parses is queued and
    signalled. *)
Lemma dispatch_response response st text parsed :
  count response engine_status = 0 ->
  decode response = Some text -> parse_json text = Some parsed ->
  dispatch decode parse_json response st
  = (Done tt,
     set_response_is_ready true
       (set_response_queue (response_queue st ++ [parsed]) st)).
Proof.
  intros H Hd Hp. unfold dispatch. fold engine_status. rewrite H.
  unfold bind, response_decode, do_parse_json. rewrite Hd.
  unfold ret. rewrite Hp. reflexivity.
Qed.

(** One read that delivers exactly one delimited frame runs the loop
    body on that frame and empties the buffer. *)
Lemma on_recv_one_frame response st :
  ~ In x00 response -> sock_handler_data st = [] ->
  on_recv decode parse_json (response ++ [x00]) st
  = match dispatch decode parse_json response st with
    | (Done _, st') => (Done tt, set_sock_handler_data [] st')
    | (Raised e, st') => (Raised e, st')
    | (Blocked, st') => (Blocked, st')
    end.
Proof.
  intros Hn Hd. unfold on_recv, bind at 1. unfold get. rewrite Hd.
  unfold bind at 1. rewrite recv_chunk_spec.
  unfold frames_of, rest_of.
  replace ([] ++ response ++ [x00]) with (delimited [response] ++ [])
    by (unfold delimited; simpl; rewrite !app_nil_r; reflexivity).
  rewrite split_delimited by (repeat constructor; tauto || exact Hn).
  simpl. unfold bind, ret.
  destruct (dispatch decode parse_json response st) as [[[]| e |] st'];
    reflexivity.
Qed.

(** C9.  A frame is treated as an event frame exactly when the bytes of
    the marker EngineStatus occur somewhere in it.  Such a frame is only
    decoded and logged: neither the response queue nor the response-ready
    signal changes, whether the loop body runs alone or as the turn of
    the worker on a read that delivers the frame; a frame without the
    marker that decodes and parses is queued and signalled.  A correlated
    response that contains the marker therefore never reaches the
    response queue, and the caller parked on the signal stays parked. *)
Theorem engine_status_frames_only_logged response st :
  let is_event := 0 <? count response engine_status in
  (is_event = true
   <-> exists pre post, response = pre ++ engine_status ++ post)
  /\ (is_event = true ->
      let st' := snd (dispatch decode parse_json response st) in
      response_queue st' = response_queue st
      /\ response_is_ready st' = response_is_ready st
      /\ (forall text, decode response = Some text ->
                       log st' = log st ++ [LogInfo text]))
  /\ (is_event = true -> ~ In x00 response -> sock_handler_data st = [] ->
      let st' := step decode parse_json (IoRecv (response ++ [x00])) st in
      response_queue st' = response_queue st
      /\ response_is_ready st' = response_is_ready st
      /\ (response_is_ready st = false ->
          fst (response_is_ready_wait st') = Blocked))
  /\ (is_event = false ->
      forall text parsed,
        decode response = Some text -> parse_json text = Some parsed ->
        let st' := snd (dispatch decode parse_json response st) in
        response_queue st' = response_queue st ++ [parsed]
        /\ response_is_ready st' = true).
Proof.
  intros is_event. subst is_event.
  split; [|split; [|split]].
  - rewrite Nat.ltb_lt. apply count_positive_iff.
  - intros H st'. subst st'. apply Nat.ltb_lt in H.
    rewrite dispatch_event by exact H.
    destruct (decode response) as [text|]; simpl.
    + repeat split. intros text' [= <-]. reflexivity.
    + repeat split. intros text' [=].
  - intros H Hn Hd st'. apply Nat.ltb_lt in H.
    assert (Hq : response_queue st' = response_queue st
                 /\ response_is_ready st' = response_is_ready st).
    { subst st'. unfold step, sock_handler_turn.
      destruct (sock_thread st) as [[| | |e]|]; try (split; reflexivity).
      destruct (sock_handler_continues st); [|split; reflexivity].
      rewrite on_recv_one_frame by assumption.
      rewrite dispatch_event by exact H.
      destruct (decode response); split; reflexivity. }
    destruct Hq as [Hq Hr]. repeat split; try assumption.
    intros Hlow. unfold response_is_ready_wait, bind, get.
    rewrite Hr, Hlow. reflexivity.
  - intros H text parsed Hd Hp st'. subst st'.
    apply Nat.ltb_ge in H. assert (H0 : count response engine_status = 0) by lia.
    rewrite (@dispatch_response response st text parsed H0 Hd Hp). split; reflexivity.
Qed.
End DispatchFacts.

Lemma engine_status_frames_only_logged_witness :
  let st' := step ascii_decode sample_parse_json
                  (IoRecv (engine_status_reply ++ [x00])) awaiting_core in
  response_queue st' = response_queue awaiting_core
  /\ response_is_ready st' = response_is_ready awaiting_core
  /\ (response_is_ready awaiting_core = false ->
      fst (response_is_ready_wait st') = Blocked).
Proof.
  pose proof (@engine_status_frames_only_logged ascii_decode sample_parse_json
                engine_status_reply awaiting_core) as H.
  cbv zeta in H. destruct H as [_ [_ [H _]]].
  cbv zeta. apply H.
  - vm_compute. reflexivity.
  - apply not_in_by_scan. vm_compute. reflexivity.
  - vm_compute. reflexivity.
Defined.

(** ** The wire format *)

Lemma nul_free_app s t : nul_free (s ++ t) = nul_free s && nul_free t.
Proof.
  induction s as [|c s IH]; [reflexivity|].
  simpl. rewrite IH, andb_assoc. reflexivity.
Qed.

Lemma nul_free_escape_char c : nul_free (escape_char c) = true.
Proof. destruct c as [[] [] [] [] [] [] [] []]; reflexivity. Qed.

Lemma nul_free_escape s : nul_free (escape s) = true.
Proof.
  induction s as [|c s IH]; [reflexivity|].
  simpl. rewrite nul_free_app, nul_free_escape_char, IH. reflexivity.
Qed.

Lemma nul_free_basestring s : nul_free (encode_basestring_ascii s) = true.
Proof.
  unfold encode_basestring_ascii. cbn [nul_free].
  rewrite nul_free_app, nul_free_escape. reflexivity.
Qed.

Lemma nul_free_uint d : nul_free (NilEmpty.string_of_uint d) = true.
Proof. induction d; simpl; auto. Qed.

Lemma nul_free_int n : nul_free (NilZero.string_of_int (Z.to_int n)) = true.
Proof.
  unfold NilZero.string_of_int, NilZero.string_of_uint.
  destruct (Z.to_int n) as [d|d]; destruct d; simpl;
    auto using nul_free_uint.
Qed.

(** [json.dumps] never emits a NUL character. *)
Lemma nul_free_json_dumps j : nul_free (json_dumps j) = true.
Proof.
  induction j as [| v | n | s | items IH | items IH] using json_induction.
  - reflexivity.
  - destruct v; reflexivity.
  - apply nul_free_int.
  - apply nul_free_basestring.
  - cbn [json_dumps]. rewrite !nul_free_app.
    match goal with
    | |- context [nul_free (?f items)] =>
        assert (He : nul_free (f items) = true)
    end.
    { induction IH as [|x l Hx Hl IHl]; [reflexivity|].
      destruct l as [|y l']; revert IHl; simpl;
        repeat (rewrite ?nul_free_app, ?Hx; simpl); auto. }
    rewrite He. reflexivity.
  - cbn [json_dumps]. rewrite !nul_free_app.
    match goal with
    | |- context [nul_free (?f items)] =>
        assert (He : nul_free (f items) = true)
    end.
    { induction IH as [|[k v] l Hx Hl IHl]; [reflexivity|].
      simpl in Hx.
      destruct l as [|[k' v'] l']; revert IHl; simpl;
        repeat (rewrite ?nul_free_app, ?nul_free_escape, ?Hx; simpl); auto. }
    rewrite He. reflexivity.
Qed.

Lemma nul_free_bytes s : nul_free s = true -> ~ In x00 (encode_utf8 s).
Proof.
  unfold encode_utf8, list_byte_of_string.
  induction s as [|c s IH]; simpl; [tauto|].
  rewrite andb_true_iff, negb_true_iff. intros [Hc Hs] [H|H].
  - apply (f_equal ascii_of_byte) in H.
    rewrite ascii_of_byte_of_ascii in H. subst c.
    vm_compute in Hc. discriminate.
  - exact (IH Hs H).
Qed.

Lemma json_bytes_no_delimiter cmd : ~ In x00 (encode_utf8 (json_dumps cmd)).
Proof. apply nul_free_bytes, nul_free_json_dumps. Qed.

Lemma split_wire_bytes cmd :
  split x00 (wire_bytes cmd) = [encode_utf8 (json_dumps cmd); []].
Proof.
  unfold wire_bytes.
  rewrite split_app, (split_no_sep _ _ (json_bytes_no_delimiter cmd)).
  simpl. rewrite app_nil_r. reflexivity.
Qed.

Lemma _send_cmd_open cmd st s :
  sock st = Some s -> closed s = false ->
  _send_cmd cmd st
  = (Done true,
     set_sock (Some {| wire := wire s ++ wire_bytes cmd;
                       connected := connected s;
                       nonblocking := nonblocking s;
                       closed := closed s |}) st).
Proof.
  intros Hs Hc. unfold _send_cmd, sock_sendall, bind, get.
  rewrite Hs, Hc. reflexivity.
Qed.

Lemma written_send_cmd cmd st s :
  sock st = Some s -> closed s = false ->
  written (snd (_send_cmd cmd st)) = written st ++ wire_bytes cmd.
Proof.
  intros Hs Hc. rewrite (_send_cmd_open _ _ Hs Hc).
  unfold written. simpl. rewrite Hs. reflexivity.
Qed.

Section WireFacts.
Variable decode : bytes -> option string.
Variable parse_json : string -> option parsed_json.

(** C8.  On an open socket [_send_cmd] hands to [sendall] exactly the
    bytes of [json.dumps] of the command followed by the byte 0x00, and
    returns [True]; the serialization holds no 0x00, so the delimiter is
    the only one in what is written and the payload splits into the
    serialized command and an empty rest.  When the worker honours the
    ping flag (read would block, Outbound Queue empty, flag raised) the
    bytes it writes are this encoding of the heartbeat dict, whose
    members are jsonrpc 2.0, method NoOp and empty params, with no id. *)
Theorem wire_encoding_and_heartbeat :
  (forall cmd st s,
      sock st = Some s -> closed s = false ->
      fst (_send_cmd cmd st) = Done true
      /\ written (snd (_send_cmd cmd st))
         = written st ++ encode_utf8 (json_dumps cmd) ++ [x00])
  /\ (forall cmd,
         ~ In x00 (encode_utf8 (json_dumps cmd))
         /\ count (wire_bytes cmd) [x00] = 1
         /\ split x00 (wire_bytes cmd) = [encode_utf8 (json_dumps cmd); []])
  /\ (forall st s,
         sock_thread st = Some Running ->
         sock_handler_continues st = true ->
         sock st = Some s -> closed s = false ->
         msg_queue st = [] -> keepalive_event st = true ->
         written (step decode parse_json IoWouldBlock st)
         = written st ++ encode_utf8 (json_dumps noop_cmd) ++ [x00])
  /\ noop_cmd = JDict [("jsonrpc", JStr "2.0"); ("method", JStr "NoOp");
                       ("params", JDict [])]
  /\ has_key "id" noop_cmd = false
  /\ json_dumps noop_cmd = noop_text.
Proof.
  split; [|split; [|split; [|repeat split]]].
  - intros cmd st s Hs Hc. split.
    + rewrite (_send_cmd_open _ _ Hs Hc). reflexivity.
    + apply written_send_cmd with (s := s); assumption.
  - intros cmd. split; [apply json_bytes_no_delimiter|]. split.
    + pose proof (count_split x00 (wire_bytes cmd)) as H.
      rewrite split_wire_bytes in H. simpl in H. lia.
    + apply split_wire_bytes.
  - intros st s Ht Hc Hs Hcl Hq Hk.
    unfold step, sock_handler_turn. rewrite Ht, Hc.
    unfold on_would_block, bind at 1. unfold get. rewrite Hq, Hk.
    unfold bind at 1. rewrite (_send_cmd_open _ _ Hs Hcl).
    unfold bind, modify. cbn. unfold written. cbn. rewrite Hs.
    reflexivity.
Qed.
End WireFacts.

Lemma wire_encoding_and_heartbeat_witness :
  written (step ascii_decode sample_parse_json IoWouldBlock
             (set_keepalive_event true connected_core))
  = written (set_keepalive_event true connected_core)
    ++ encode_utf8 (json_dumps noop_cmd) ++ [x00].
Proof.
  destruct (wire_encoding_and_heartbeat ascii_decode sample_parse_json)
    as [_ [_ [H _]]].
  apply H with (s := {| wire := []; connected := true; nonblocking := true;
                        closed := false |}); reflexivity.
Defined.

(** ** What a step of the system does to the transport *)

Lemma same_transport_refl c : same_transport c c.
Proof. repeat split. Qed.

Lemma same_transport_trans c c' c'' :
  same_transport c c' -> same_transport c' c'' -> same_transport c c''.
Proof.
  unfold same_transport. intros H H'.
  decompose [and] H. decompose [and] H'. repeat split; congruence.
Qed.

Section TransportFacts.
Variable decode : bytes -> option string.
Variable parse_json : string -> option parsed_json.

Lemma dispatch_same_transport response c :
  same_transport c (snd (dispatch decode parse_json response c)).
Proof.
  unfold dispatch, bind, response_decode, do_parse_json, logging_info,
    emit, response_queue_put, modify, ret, raise.
  destruct (0 <? count response (lit "EngineStatus"));
    destruct (decode response) as [text|]; try (repeat split; fail).
  destruct (parse_json text); repeat split.
Qed.

Lemma handle_frames_same_transport frames rest :
  forall c,
    same_transport c
      (snd (handle_frames (dispatch decode parse_json) frames rest c)).
Proof.
  induction frames as [|f frames IH]; intros c.
  - apply same_transport_refl.
  - cbn [handle_frames]. unfold bind.
    pose proof (dispatch_same_transport f c) as Hd.
    destruct (dispatch decode parse_json f c) as [[[]| e |] c'];
      simpl in Hd; simpl; try exact Hd.
    eapply same_transport_trans; [exact Hd|apply IH].
Qed.

Lemma on_recv_same_transport chunk c :
  same_transport c (snd (on_recv decode parse_json chunk c)).
Proof.
  unfold on_recv, bind at 1. unfold get. unfold bind.
  rewrite recv_chunk_spec.
  pose proof (handle_frames_same_transport
                (frames_of (sock_handler_data c ++ chunk))
                (rest_of (sock_handler_data c ++ chunk)) c) as H.
  destruct (handle_frames (dispatch decode parse_json) _ _ c)
    as [[data| e |] c']; simpl in H; simpl;
    first [exact H|eapply same_transport_trans; [exact H|repeat split]].
Qed.

(** A turn of the worker on a read that returns data leaves the
    transport alone, except that the thread may end. *)
Lemma step_recv_transport chunk c :
  let c' := step decode parse_json (IoRecv chunk) c in
  sock c' = sock c /\ msg_queue c' = msg_queue c
  /\ keepalive_event c' = keepalive_event c
  /\ noop_timer c' = noop_timer c
  /\ (sock_thread c' = sock_thread c
      \/ (sock_thread c = Some Running
          /\ sock_handler_continues c = false
          /\ sock_thread c' = Some Finished)
      \/ exists e, sock_thread c' = Some (Died e)).
Proof.
  cbv zeta. unfold step, sock_handler_turn.
  destruct (sock_thread c) as [[| | |e0]|] eqn:Ht;
    try (repeat split; auto; fail).
  destruct (sock_handler_continues c) eqn:Hc.
  - pose proof (on_recv_same_transport chunk c) as H.
    destruct (on_recv decode parse_json chunk c) as [[[]| e |] c'];
      simpl in H; destruct H as (Hs & Hst & _ & Hq & Hk & _ & Hn);
      simpl; repeat split; auto.
    + left. congruence.
    + right. right. exists e. reflexivity.
    + left. congruence.
  - simpl. repeat split; auto.
Qed.

(** The idle turn of a running worker on an open socket: a queued
    request is written and the countdown reset; else, with the ping flag
    raised, the heartbeat is written, the flag lowered and the countdown
    reset; else nothing happens. *)
Lemma step_idle c :
  sock_thread c = Some Running -> sock_handler_continues c = true ->
  sock_open c = true ->
  let c' := step decode parse_json IoWouldBlock c in
  sock_thread c' = Some Running /\ sock_open c' = true
  /\ match msg_queue c with
     | cmd :: q =>
         written c' = written c ++ wire_bytes cmd
         /\ msg_queue c' = q /\ noop_timer c' = 29%Z
         /\ keepalive_event c' = keepalive_event c
     | [] =>
         msg_queue c' = []
         /\ if keepalive_event c
            then written c' = written c ++ wire_bytes noop_cmd
                 /\ keepalive_event c' = false /\ noop_timer c' = 29%Z
            else c' = c
     end.
Proof.
  core_fields c. cbn [sock_thread sock_open sock]. intros Ht Hc Ho.
  subst sock_thread0.
  destruct sock0 as [[w cn nb cl]|]; [|discriminate].
  destruct cl; [discriminate|].
  cbv zeta. unfold step, sock_handler_turn. cbn [sock_thread].
  rewrite Hc. unfold on_would_block, bind at 1. unfold get.
  cbn [msg_queue keepalive_event].
  destruct msg_queue0 as [|cmd q].
  - destruct keepalive_event0; cbn; repeat split; reflexivity.
  - cbn. repeat split; reflexivity.
Qed.

(** A turn of a running keepalive: at zero the ping flag is raised and
    the countdown reset, otherwise the countdown loses one. *)
Lemma step_tick c :
  keepalive_thread c = Some Running -> keepalive_continues c = true ->
  let c' := step decode parse_json Tick c in
  sock c' = sock c /\ msg_queue c' = msg_queue c
  /\ sock_thread c' = sock_thread c
  /\ if (noop_timer c =? 0)%Z
     then keepalive_event c' = true /\ noop_timer c' = 29%Z
     else keepalive_event c' = keepalive_event c
          /\ noop_timer c' = (noop_timer c - 1)%Z.
Proof.
  core_fields c. cbn [keepalive_thread]. intros Ht Hc. subst.
  cbv zeta. unfold step, keepalive_turn. cbn [keepalive_thread].
  rewrite Hc. unfold keepalive_body, bind, get.
  cbn [noop_timer fst snd]. destruct (noop_timer0 =? 0)%Z; cbn;
    repeat split; reflexivity.
Qed.

(** A turn of keepalive never touches socket, queue or worker thread,
    and raises the ping flag only when it finds the countdown at zero. *)
Lemma step_tick_transport c :
  let c' := step decode parse_json Tick c in
  sock c' = sock c /\ msg_queue c' = msg_queue c
  /\ sock_thread c' = sock_thread c
  /\ (keepalive_event c' = keepalive_event c
      \/ (expiry_tick Tick c = true /\ keepalive_event c' = true)).
Proof.
  cbv zeta. unfold expiry_tick, keepalive_thread_running.
  destruct (keepalive_thread c) as [[| | |e0]|] eqn:Ht;
    try (unfold step, keepalive_turn; rewrite Ht;
         repeat split; auto; fail).
  destruct (keepalive_continues c) eqn:Hc.
  - pose proof (step_tick c Ht Hc) as H. cbv zeta in H.
    destruct H as (Hs & Hq & Hst & H). repeat split; auto.
    destruct (noop_timer c =? 0)%Z; destruct H as [Hk _]; auto.
  - unfold step, keepalive_turn. rewrite Ht, Hc. simpl.
    repeat split; auto.
Qed.

Lemma step_put cmd c :
  step decode parse_json (CallerPut cmd) c
  = set_msg_queue (msg_queue c ++ [cmd]) c.
Proof. reflexivity. Qed.

(** A call of no_op touches neither socket nor queue nor threads. *)
Lemma step_no_op_transport c :
  let c' := step decode parse_json CallerNoOp c in
  sock c' = sock c /\ msg_queue c' = msg_queue c
  /\ sock_thread c' = sock_thread c.
Proof.
  core_fields c. cbv zeta. unfold step, no_op, sock_thread_is_alive.
  unfold bind, get, ret. cbn [sock_thread keepalive_event fst snd].
  destruct sock_thread0 as [t|]; [|repeat split].
  cbn [keepalive_event].
  destruct (is_alive t && negb keepalive_event0); cbn; repeat split.
Qed.

(** The worker thread of a core that is not running does not move. *)
Lemma step_io_not_running ev c :
  sock_thread_running c = false ->
  (ev = IoWouldBlock \/ exists chunk, ev = IoRecv chunk) ->
  step decode parse_json ev c = c.
Proof.
  unfold sock_thread_running. intros Hr Hev.
  destruct Hev as [->|[chunk ->]]; unfold step, sock_handler_turn;
    destruct (sock_thread c) as [[| | |e0]|]; try reflexivity;
    discriminate.
Qed.

(** The worker leaves its loop exactly on the test of the [while]. *)
Lemma step_io_exit ev c :
  sock_thread c = Some Running ->
  (ev = IoWouldBlock \/ exists chunk, ev = IoRecv chunk) ->
  sock_handler_continues c = false ->
  step decode parse_json ev c = set_sock_thread (Some Finished) c.
Proof.
  intros Ht Hev Hc.
  destruct Hev as [->|[chunk ->]]; unfold step, sock_handler_turn;
    rewrite Ht, Hc; reflexivity.
Qed.

Lemma continues_false_iff c :
  sock_handler_continues c = false
  <-> stop_threads c = true /\ msg_queue c = [].
Proof.
  unfold sock_handler_continues.
  destruct (stop_threads c); destruct (msg_queue c); simpl;
    split; try tauto; try discriminate; intros [H1 H2]; discriminate.
Qed.

(** On an open socket a step keeps the socket open and only adds to the
    stream of written and queued bytes; a worker that was running and has
    finished has left an empty queue and was asked to stop. *)
Lemma step_pending ev c :
  sock_open c = true ->
  let c' := step decode parse_json ev c in
  sock_open c' = true
  /\ (exists extra, pending c' = pending c ++ extra)
  /\ stop_threads c' = stop_threads c
  /\ (sock_thread c = Some Running -> sock_thread c' = Some Finished ->
      stop_threads c = true /\ msg_queue c' = []).
Proof.
  intros Ho. cbv zeta. destruct ev as [chunk| | |cmd|].
  - pose proof (step_recv_transport chunk c) as H. cbv zeta in H.
    destruct H as (Hs & Hq & _ & _ & Ht).
    assert (Hstop : stop_threads
                      (step decode parse_json (IoRecv chunk) c)
                    = stop_threads c).
    { unfold step, sock_handler_turn.
      destruct (sock_thread c) as [[| | |e0]|]; try reflexivity.
      destruct (sock_handler_continues c); [|reflexivity].
      pose proof (on_recv_same_transport chunk c) as H.
      destruct (on_recv decode parse_json chunk c) as [[[]| e |] c'];
        simpl in H; destruct H as (_ & _ & _ & _ & _ & H & _);
        exact H. }
    unfold sock_open, pending, written in *. rewrite Hs, Hq.
    repeat split; auto.
    + exists []. rewrite app_nil_r. reflexivity.
    + destruct Ht as [Ht|[(_ & Hc & _)|[e Ht]]]; try congruence.
      apply continues_false_iff in Hc. tauto.
    + destruct Ht as [Ht|[(_ & Hc & _)|[e Ht]]]; try congruence.
      apply continues_false_iff in Hc. tauto.
  - destruct (sock_thread c) as [[| | |e0]|] eqn:Ht;
      try (rewrite step_io_not_running;
           [repeat split; auto; try congruence;
            exists []; rewrite app_nil_r; reflexivity
           |unfold sock_thread_running; rewrite Ht; reflexivity
           |left; reflexivity]).
    destruct (sock_handler_continues c) eqn:Hc.
    + pose proof (step_idle c Ht Hc Ho) as H. cbv zeta in H.
      destruct H as (Ht' & Ho' & H).
      assert (Hstop : stop_threads (step decode parse_json IoWouldBlock c)
                      = stop_threads c).
      { clear. core_fields c. unfold step, sock_handler_turn.
        cbn [sock_thread].
        destruct sock_thread0 as [[| | |e0]|]; try reflexivity.
        destruct (sock_handler_continues _); [|reflexivity].
        unfold on_would_block, bind at 1. unfold get.
        cbn [msg_queue keepalive_event].
        destruct msg_queue0 as [|cmd q].
        - destruct keepalive_event0; [|reflexivity].
          unfold bind, _send_cmd, sock_sendall, get. cbn [sock].
          destruct sock0 as [[w cn nb cl]|]; [destruct cl|]; reflexivity.
        - unfold bind, _send_cmd, sock_sendall, get. cbn.
          destruct sock0 as [[w cn nb cl]|]; [destruct cl|]; reflexivity. }
      split; [exact Ho'|]. split; [|split; [exact Hstop|congruence]].
      unfold pending.
      destruct (msg_queue c) as [|cmd q] eqn:Hq.
      * destruct H as [Hq' H]. rewrite Hq'.
        destruct (keepalive_event c).
        -- destruct H as (Hw & _). rewrite Hw. simpl.
           exists (wire_bytes noop_cmd). rewrite !app_nil_r. reflexivity.
        -- rewrite H. exists []. simpl. rewrite !app_nil_r. reflexivity.
      * destruct H as (Hw & Hq' & _). rewrite Hw, Hq'. simpl.
        exists []. rewrite app_nil_r, <- app_assoc. reflexivity.
    + rewrite step_io_exit by (auto; left; reflexivity).
      apply continues_false_iff in Hc. destruct Hc as [Hs Hq].
      repeat split; auto.
      exists []. rewrite app_nil_r. reflexivity.
  - pose proof (step_tick_transport c) as H. cbv zeta in H.
    destruct H as (Hs & Hq & Ht & _).
    assert (Hstop : stop_threads (step decode parse_json Tick c)
                    = stop_threads c).
    { clear. core_fields c. unfold step, keepalive_turn.
      cbn [keepalive_thread].
      destruct keepalive_thread0 as [[| | |e0]|]; try reflexivity.
      destruct (keepalive_continues _); [|reflexivity].
      unfold keepalive_body, bind, get. cbn [noop_timer fst snd].
      destruct (noop_timer0 =? 0)%Z; reflexivity. }
    unfold sock_open, pending, written in *. rewrite Hs, Hq.
    repeat split; auto; try congruence.
    exists []. rewrite app_nil_r. reflexivity.
  - rewrite step_put. unfold sock_open, pending, written in *. simpl.
    repeat split; auto; try congruence.
    exists (wire_bytes cmd).
    rewrite map_app, concat_app. simpl.
    rewrite app_nil_r, app_assoc. reflexivity.
  - pose proof (step_no_op_transport c) as H. cbv zeta in H.
    destruct H as (Hs & Hq & Ht).
    assert (Hstop : stop_threads (step decode parse_json CallerNoOp c)
                    = stop_threads c).
    { clear. core_fields c. unfold step, no_op, sock_thread_is_alive.
      unfold bind, get, ret. cbn [sock_thread keepalive_event fst snd].
      destruct sock_thread0 as [t|]; [|reflexivity].
      cbn [keepalive_event].
      destruct (is_alive t && negb keepalive_event0); reflexivity. }
    unfold sock_open, pending, written in *. rewrite Hs, Hq.
    repeat split; auto; try congruence.
    exists []. rewrite app_nil_r. reflexivity.
Qed.
End TransportFacts.

(** ** The heartbeat *)

Lemma is_alive_running t : is_alive t = true -> t = Running.
Proof. destruct t; simpl; congruence. Qed.

Lemma sock_thread_running_iff c :
  sock_thread_running c = true <-> sock_thread c = Some Running.
Proof.
  unfold sock_thread_running. split.
  - destruct (sock_thread c) as [t|]; [|discriminate].
    intros H. apply is_alive_running in H. congruence.
  - intros ->. reflexivity.
Qed.

Section HeartbeatFacts.
Variable decode : bytes -> option string.
Variable parse_json : string -> option parsed_json.

Lemma sends_heartbeat_inv ev c :
  sends_heartbeat ev c = true ->
  ev = IoWouldBlock /\ sock_thread c = Some Running
  /\ sock_handler_continues c = true /\ sock_open c = true
  /\ msg_queue c = [] /\ keepalive_event c = true.
Proof.
  destruct ev; simpl; try discriminate.
  rewrite !andb_true_iff, sock_thread_running_iff.
  destruct (msg_queue c); [tauto|]. intros [[_ H] _]. discriminate.
Qed.

Lemma sends_request_inv ev c :
  sends_request ev c = true ->
  ev = IoWouldBlock /\ sock_thread c = Some Running
  /\ sock_handler_continues c = true /\ sock_open c = true
  /\ exists cmd q, msg_queue c = cmd :: q.
Proof.
  destruct ev; simpl; try discriminate.
  rewrite !andb_true_iff, sock_thread_running_iff.
  destruct (msg_queue c) as [|cmd q]; [intros [_ H]; discriminate|].
  intros [[[H1 H2] H3] _]. repeat split; auto. exists cmd, q. reflexivity.
Qed.

(** The idle turn of the worker never raises the ping flag. *)
Lemma step_idle_flag c :
  keepalive_event (step decode parse_json IoWouldBlock c) = true ->
  keepalive_event c = true.
Proof.
  core_fields c. unfold step, sock_handler_turn. cbn [sock_thread].
  destruct sock_thread0 as [[| | |e0]|]; try (intros H; exact H).
  destruct (sock_handler_continues _); [|intros H; exact H].
  unfold on_would_block, bind, get, _send_cmd, sock_sendall.
  cbn [msg_queue keepalive_event fst snd bind get sock].
  destruct msg_queue0 as [|cmd q].
  - destruct keepalive_event0; [reflexivity|intros H; exact H].
  - destruct sock0 as [[w cn nb cl]|]; [destruct cl|]; cbn;
      intros H; exact H.
Qed.

(** Who raises the ping flag: the tick of keepalive that finds the
    countdown at zero, or a caller of no_op. *)
Lemma flag_provenance ev c :
  keepalive_event (step decode parse_json ev c) = true ->
  keepalive_event c = true \/ expiry_tick ev c = true \/ ev = CallerNoOp.
Proof.
  destruct ev as [chunk| | |cmd|]; intros H.
  - left. pose proof (step_recv_transport decode parse_json chunk c) as T.
    cbv zeta in T. destruct T as (_ & _ & Hk & _). congruence.
  - left. exact (step_idle_flag c H).
  - pose proof (step_tick_transport decode parse_json c) as T.
    cbv zeta in T. destruct T as (_ & _ & _ & [Hk|[He _]]).
    + left. congruence.
    + right. left. exact He.
  - left. exact H.
  - right. right. reflexivity.
Qed.

(** Without calls of no_op every heartbeat follows an expiry of the
    countdown; the invariant is that a raised flag is an armed system. *)
Lemma pings_follow_expiry_armed tr :
  forall c armed,
    no_op_free tr = true ->
    (keepalive_event c = true -> armed = true) ->
    pings_follow_expiry decode parse_json false armed tr c = true.
Proof.
  induction tr as [|ev tr IH]; intros c armed Hfree Hinv; [reflexivity|].
  unfold no_op_free in Hfree. cbn [forallb] in Hfree.
  apply andb_true_iff in Hfree. destruct Hfree as [Hev Hfree].
  cbn [pings_follow_expiry andb]. apply andb_true_iff. split.
  - destruct (sends_heartbeat ev c) eqn:Hs; [|reflexivity].
    apply sends_heartbeat_inv in Hs. apply Hinv. tauto.
  - apply IH; [exact Hfree|]. intros Hk.
    destruct (expiry_tick ev c) eqn:He; [reflexivity|].
    destruct (sends_heartbeat ev c) eqn:Hs.
    + apply sends_heartbeat_inv in Hs.
      destruct Hs as (-> & Ht & Hc & Ho & Hq & Hf).
      pose proof (step_idle decode parse_json c Ht Hc Ho) as T.
      cbv zeta in T. rewrite Hq, Hf in T.
      destruct T as (_ & _ & _ & _ & T & _). congruence.
    + destruct (flag_provenance ev c Hk) as [H|[H|H]].
      * exact (Hinv H).
      * congruence.
      * subst ev. discriminate.
Qed.

(** Nothing reaches the socket on a step that writes neither a request
    nor the heartbeat. *)
Lemma step_writes_nothing ev c :
  sends_heartbeat ev c = false -> sends_request ev c = false ->
  written (step decode parse_json ev c) = written c.
Proof.
  destruct ev as [chunk| | |cmd|]; intros Hh Hr.
  - pose proof (step_recv_transport decode parse_json chunk c) as T.
    cbv zeta in T. destruct T as (Hs & _). unfold written. rewrite Hs.
    reflexivity.
  - revert Hh Hr. core_fields c.
    unfold sends_heartbeat, sends_request, sock_thread_running, sock_open,
      step, sock_handler_turn, written.
    cbn [sock_thread sock msg_queue keepalive_event].
    destruct sock_thread0 as [[| | |e0]|]; try reflexivity.
    cbn [is_alive andb].
    destruct (sock_handler_continues _); [|reflexivity].
    unfold on_would_block, bind, get, _send_cmd, sock_sendall.
    cbn [msg_queue keepalive_event fst snd bind get sock andb].
    destruct sock0 as [[w cn nb cl]|]; [destruct cl|];
      destruct msg_queue0 as [|cmd q]; destruct keepalive_event0;
      cbn; intros Hh Hr; try reflexivity; discriminate.
  - pose proof (step_tick_transport decode parse_json c) as T.
    cbv zeta in T. destruct T as (Hs & _). unfold written. rewrite Hs.
    reflexivity.
  - reflexivity.
  - pose proof (step_no_op_transport decode parse_json c) as T.
    cbv zeta in T. destruct T as (Hs & _). unfold written. rewrite Hs.
    reflexivity.
Qed.

(** C5 (amended).  The heartbeat is written exactly on an idle turn of
    the running worker that finds the Outbound Queue empty and the ping
    flag raised; writing it lowers the flag and resets the countdown to
    29.  Writing a queued request resets the countdown to 29 and leaves
    the flag as it is; no other step writes to the socket.  A tick of
    the running keepalive decrements a nonzero countdown by exactly one,
    and at zero raises the flag and resets the countdown to 29.  The flag
    is raised only by such a tick at zero or by a call of no_op, so in an
    execution without calls of no_op that starts with the flag lowered
    every heartbeat follows an expiry of the countdown, whatever
    application traffic lies in between. *)
Theorem heartbeat_follows_flag :
  (forall ev c,
      sends_heartbeat ev c = true ->
      let c' := step decode parse_json ev c in
      written c' = written c ++ wire_bytes noop_cmd
      /\ keepalive_event c = true /\ keepalive_event c' = false
      /\ noop_timer c' = 29%Z)
  /\ (forall ev c,
         sends_request ev c = true ->
         let c' := step decode parse_json ev c in
         exists cmd q,
           msg_queue c = cmd :: q /\ msg_queue c' = q
           /\ written c' = written c ++ wire_bytes cmd
           /\ noop_timer c' = 29%Z
           /\ keepalive_event c' = keepalive_event c)
  /\ (forall ev c,
         sends_heartbeat ev c = false -> sends_request ev c = false ->
         written (step decode parse_json ev c) = written c)
  /\ (forall c,
         keepalive_thread c = Some Running -> keepalive_continues c = true ->
         let c' := step decode parse_json Tick c in
         if (noop_timer c =? 0)%Z
         then keepalive_event c' = true /\ noop_timer c' = 29%Z
         else keepalive_event c' = keepalive_event c
              /\ noop_timer c' = (noop_timer c - 1)%Z)
  /\ (forall ev c,
         keepalive_event c = false ->
         keepalive_event (step decode parse_json ev c) = true ->
         expiry_tick ev c = true \/ ev = CallerNoOp)
  /\ (forall tr c,
         no_op_free tr = true -> keepalive_event c = false ->
         pings_follow_expiry decode parse_json false false tr c = true).
Proof.
  split; [|split; [|split; [|split; [|split]]]].
  - intros ev c Hs c'. subst c'. apply sends_heartbeat_inv in Hs.
    destruct Hs as (-> & Ht & Hc & Ho & Hq & Hf).
    pose proof (step_idle decode parse_json c Ht Hc Ho) as T.
    cbv zeta in T. rewrite Hq, Hf in T.
    destruct T as (_ & _ & _ & Hw & Hk & Hn). auto.
  - intros ev c Hs c'. subst c'. apply sends_request_inv in Hs.
    destruct Hs as (-> & Ht & Hc & Ho & cmd & q & Hq).
    pose proof (step_idle decode parse_json c Ht Hc Ho) as T.
    cbv zeta in T. rewrite Hq in T.
    destruct T as (_ & _ & Hw & Hq' & Hn & Hk).
    exists cmd, q. auto.
  - apply step_writes_nothing.
  - intros c Ht Hc c'. subst c'.
    pose proof (step_tick decode parse_json c Ht Hc) as T.
    cbv zeta in T. destruct T as (_ & _ & _ & T). exact T.
  - intros ev c Hlow Hhigh.
    destruct (flag_provenance ev c Hhigh) as [H|H]; [congruence|exact H].
  - intros tr c Hfree Hlow. apply pings_follow_expiry_armed; [exact Hfree|].
    congruence.
Qed.
End HeartbeatFacts.

(** The claim as first stated fails in two ways: a caller of no_op gets a
    heartbeat written while the countdown never left 29, and after an
    expiry of the countdown the heartbeat is still written although a
    request was written in between. *)
Lemma heartbeat_without_quiet_expiry :
  sends_heartbeat IoWouldBlock
    (step ascii_decode sample_parse_json CallerNoOp connected_core) = true
  /\ written (run ascii_decode sample_parse_json manual_ping_trace
                connected_core)
     = wire_bytes noop_cmd
  /\ countdowns ascii_decode sample_parse_json manual_ping_trace
       connected_core = [29; 29; 29]%Z
  /\ pings_follow_expiry ascii_decode sample_parse_json false false
       manual_ping_trace connected_core = false
  /\ pings_follow_expiry ascii_decode sample_parse_json true false
       chatty_trace connected_core = false.
Proof. vm_compute. repeat split. Qed.

Lemma heartbeat_follows_flag_witness :
  pings_follow_expiry ascii_decode sample_parse_json false false
    chatty_trace connected_core = true.
Proof.
  destruct (heartbeat_follows_flag ascii_decode sample_parse_json)
    as (_ & _ & _ & _ & _ & H).
  apply H; reflexivity.
Defined.

(** ** Shutdown *)

Section ShutdownFacts.
Variable decode : bytes -> option string.
Variable parse_json : string -> option parsed_json.

(** The body of the loop ends the thread only by an exception. *)
Lemma step_idle_thread c :
  sock_thread c = Some Running -> sock_handler_continues c = true ->
  sock_thread (step decode parse_json IoWouldBlock c) = Some Running
  \/ exists e,
      sock_thread (step decode parse_json IoWouldBlock c) = Some (Died e).
Proof.
  core_fields c. cbn [sock_thread]. intros -> Hc.
  unfold step, sock_handler_turn. cbn [sock_thread]. rewrite Hc.
  unfold on_would_block, bind, get, _send_cmd, sock_sendall.
  cbn [msg_queue keepalive_event fst snd bind get sock].
  destruct sock0 as [[w cn nb cl]|]; [destruct cl|];
    destruct msg_queue0 as [|cmd q]; destruct keepalive_event0; cbn;
    (left; reflexivity) || (right; eexists; reflexivity).
Qed.

Lemma step_io_finished ev c :
  sock_thread c = Some Running ->
  (ev = IoWouldBlock \/ exists chunk, ev = IoRecv chunk) ->
  (sock_thread (step decode parse_json ev c) = Some Finished
   <-> sock_handler_continues c = false).
Proof.
  intros Ht Hev. split.
  - intros Hf. destruct (sock_handler_continues c) eqn:Hc; [|reflexivity].
    exfalso. destruct Hev as [->|[chunk ->]].
    + destruct (@step_idle_thread c Ht Hc) as [H|[e H]]; congruence.
    + pose proof (step_recv_transport decode parse_json chunk c) as T.
      cbv zeta in T.
      destruct T as (_ & _ & _ & _ & [H|[(_ & H & _)|[e H]]]); congruence.
  - intros Hc. rewrite (@step_io_exit decode parse_json ev c Ht Hev Hc).
    reflexivity.
Qed.

(** [join] returns at once on a thread that has ended. *)
Lemma join_ended script c :
  sock_thread c = Some Finished \/ (exists e, sock_thread c = Some (Died e)) ->
  sock_thread_join decode parse_json script c = (Done tt, c).
Proof.
  intros [H|[e H]]; destruct script; simpl; rewrite H; reflexivity.
Qed.

Lemma join_running ev script c :
  sock_thread c = Some Running ->
  sock_thread_join decode parse_json (ev :: script) c
  = sock_thread_join decode parse_json script (step decode parse_json ev c).
Proof. intros H. simpl. rewrite H. reflexivity. Qed.

(** A caller of [join] never sees the socket closed by it, and when the
    worker has left its loop by the test of the [while], everything that
    was written or queued when the wait began has been written. *)
Lemma join_flushes script :
  forall c o c',
    sock_open c = true -> sock_thread c = Some Running ->
    sock_thread_join decode parse_json script c = (o, c') ->
    sock_open c' = true
    /\ (sock_thread c' = Some Finished ->
        msg_queue c' = []
        /\ exists extra, written c' = pending c ++ extra).
Proof.
  induction script as [|ev script IH]; intros c o c' Ho Ht Hj.
  - simpl in Hj. rewrite Ht in Hj. injection Hj as <- <-.
    split; [exact Ho|congruence].
  - rewrite (@join_running ev script c Ht) in Hj.
    pose proof (step_pending decode parse_json ev c Ho) as P.
    cbv zeta in P. destruct P as (Ho1 & [extra1 Hp1] & _ & Hfin).
    set (c1 := step decode parse_json ev c) in *.
    destruct (sock_thread c1) as [[| | |e]|] eqn:Ht1.
    + simpl in Hj. destruct script; simpl in Hj; rewrite Ht1 in Hj;
        injection Hj as <- <-; (split; [exact Ho1|congruence]).
    + destruct (IH c1 o c' Ho1 Ht1 Hj) as (Ho' & H).
      split; [exact Ho'|]. intros Hf.
      destruct (H Hf) as (Hq & extra & Hw).
      split; [exact Hq|]. exists (extra1 ++ extra).
      rewrite Hw, Hp1, app_assoc. reflexivity.
    + rewrite join_ended in Hj by (left; exact Ht1).
      injection Hj as <- <-. split; [exact Ho1|]. intros _.
      destruct (Hfin Ht eq_refl) as [_ Hq]. split; [exact Hq|].
      exists extra1. rewrite <- Hp1. unfold pending. rewrite Hq.
      simpl. rewrite app_nil_r. reflexivity.
    + rewrite join_ended in Hj by (right; exists e; exact Ht1).
      injection Hj as <- <-. split; [exact Ho1|congruence].
    + destruct script; simpl in Hj; rewrite Ht1 in Hj;
        injection Hj as <- <-; (split; [exact Ho1|congruence]).
Qed.



End ShutdownFacts.

(** ** A call from request to result *)

Lemma build_cmd_spec method params c :
  _build_cmd method params c
  = (Done (request_dict method params (id_generator c)),
     set_id_generator (id_generator c + 1)%Z c).
Proof. reflexivity. Qed.

Lemma getitem_id_request method params n c :
  getitem_id (request_dict method params n) c = (Done (IdInt n), c).
Proof.
  unfold request_dict, getitem_id. destruct (truthy params); reflexivity.
Qed.

(** With a live worker a call queues its request and goes on to wait. *)
Lemma submit_and_await_alive report cmd c :
  sock_thread c = Some Running ->
  submit_and_await report cmd c
  = await_response cmd (set_msg_queue (msg_queue c ++ [cmd]) c).
Proof.
  intros Ht. unfold submit_and_await, sock_thread_is_alive.
  unfold bind at 1. unfold bind at 1. unfold get. rewrite Ht.
  reflexivity.
Qed.

Lemma await_response_parked cmd c :
  response_is_ready c = false -> await_response cmd c = (Blocked, c).
Proof.
  intros Hr. unfold await_response, response_is_ready_wait, bind, get.
  rewrite Hr. reflexivity.
Qed.

(** Once signalled the caller takes the oldest response of the queue. *)
Lemma await_response_ready cmd i parsed rest c :
  response_is_ready c = true ->
  (forall c', getitem_id cmd c' = (Done i, c')) ->
  response_queue c = parsed :: rest ->
  await_response cmd c = parse_response i parsed (set_response_queue rest c).
Proof.
  intros Hr Hi Hq. unfold await_response, response_is_ready_wait.
  unfold bind at 1. unfold bind at 1. unfold get. rewrite Hr.
  unfold ret at 1. unfold bind at 1. rewrite Hi.
  unfold response_queue_get, bind, get, modify, ret. rewrite Hq.
  destruct (parse_response i parsed (set_response_queue rest c))
    as [[r| e |] c']; reflexivity.
Qed.

Lemma call_alive method params report c :
  sock_thread c = Some Running ->
  bind (_build_cmd method params) (fun cmd => submit_and_await report cmd) c
  = await_response (request_dict method params (id_generator c))
      (set_msg_queue
         (msg_queue c ++ [request_dict method params (id_generator c)])
         (set_id_generator (id_generator c + 1)%Z c)).
Proof.
  intros Ht. unfold bind. rewrite build_cmd_spec.
  rewrite submit_and_await_alive by exact Ht. reflexivity.
Qed.

Section RoundTrip.
Variable decode : bytes -> option string.
Variable parse_json : string -> option parsed_json.

(** The idle turn of the worker that finds a request queued. *)
Lemma step_idle_request c cmd q s :
  sock_thread c = Some Running -> sock_handler_continues c = true ->
  sock c = Some s -> closed s = false -> msg_queue c = cmd :: q ->
  step decode parse_json IoWouldBlock c
  = set_noop_timer 29
      (set_sock (Some {| wire := wire s ++ wire_bytes cmd;
                         connected := connected s;
                         nonblocking := nonblocking s;
                         closed := closed s |})
         (set_msg_queue q c)).
Proof.
  intros Ht Hc Hs Hcl Hq. unfold step, sock_handler_turn. rewrite Ht, Hc.
  unfold on_would_block, bind at 1. unfold get. rewrite Hq.
  unfold bind at 1. unfold modify at 1. unfold bind at 1.
  rewrite (@_send_cmd_open cmd (set_msg_queue q c) s Hs Hcl).
  reflexivity.
Qed.

(** X1.  A call on an idle live connection.  The call queues the request
    that [_build_cmd] made with the next id and parks on the signal; the
    next idle turn of the worker writes exactly that request, delimited;
    a read that delivers one frame which decodes and parses to a result
    with that id queues it and raises the signal; the caller then returns
    that result, with the response queue empty and the signal lowered
    again.  With a live worker [status_get] and [logon] are the call of
    [_send] for their method and parameters. *)
Theorem call_round_trip method params reply text result c :
  sock_thread c = Some Running -> sock_open c = true ->
  stop_threads c = false ->
  msg_queue c = [] -> response_queue c = [] ->
  response_is_ready c = false -> sock_handler_data c = [] ->
  ~ In x00 reply -> count reply engine_status = 0 ->
  decode reply = Some text ->
  parse_json text = Some (Ok result (IdInt (id_generator c))) ->
  let cmd := request_dict method params (id_generator c) in
  let c1 := snd (_send method params c) in
  let c2 := step decode parse_json IoWouldBlock c1 in
  let c3 := step decode parse_json (IoRecv (reply ++ [x00])) c2 in
  fst (_send method params c) = Blocked
  /\ msg_queue c1 = [cmd]
  /\ written c2 = written c ++ wire_bytes cmd /\ msg_queue c2 = []
  /\ response_queue c3 = [Ok result (IdInt (id_generator c))]
  /\ response_is_ready c3 = true
  /\ await_response cmd c3
     = (Done result, set_response_is_ready false (set_response_queue [] c3))
  /\ status_get c = _send "StatusGet" JNull c
  /\ (forall user password,
         logon user password c
         = _send "Logon" (JDict [("User", user); ("Password", password)]) c).
Proof.
  intros Ht Ho Hs Hq Hrq Hr Hd Hn Hc Hdec Hp cmd c1 c2 c3.
  assert (E1 : _send method params c
               = (Blocked,
                  set_msg_queue [cmd]
                    (set_id_generator (id_generator c + 1)%Z c))).
  { unfold _send. rewrite (call_alive method params print c Ht).
    rewrite Hq. apply await_response_parked. exact Hr. }
  assert (Hc1 : c1 = set_msg_queue [cmd]
                       (set_id_generator (id_generator c + 1)%Z c))
    by (unfold c1; rewrite E1; reflexivity).
  assert (Ht1 : sock_thread c1 = Some Running) by (rewrite Hc1; exact Ht).
  assert (Ho1 : sock_open c1 = true) by (rewrite Hc1; exact Ho).
  assert (Hk1 : sock_handler_continues c1 = true)
    by (rewrite Hc1; unfold sock_handler_continues; simpl;
        apply orb_true_r).
  pose proof (step_idle decode parse_json c1 Ht1 Hk1 Ho1) as T.
  cbv zeta in T. fold c2 in T.
  assert (Hq1 : msg_queue c1 = [cmd]) by (rewrite Hc1; reflexivity).
  rewrite Hq1 in T. destruct T as (Ht2 & Ho2 & Hw2 & Hq2 & _).
  assert (F2 : response_queue c2 = [] /\ response_is_ready c2 = false
               /\ sock_handler_data c2 = [] /\ stop_threads c2 = false).
  { unfold sock_open in Ho1.
    destruct (sock c1) as [s|] eqn:Es; [|discriminate].
    apply negb_true_iff in Ho1. unfold c2.
    rewrite (@step_idle_request c1 cmd [] s Ht1 Hk1 Es Ho1 Hq1).
    rewrite Hc1. simpl. auto. }
  destruct F2 as (Hrq2 & Hr2 & Hd2 & Hs2).
  assert (Hk2 : sock_handler_continues c2 = true)
    by (unfold sock_handler_continues; rewrite Hs2; reflexivity).
  assert (E3 : c3 = set_sock_handler_data []
                      (set_response_is_ready true
                         (set_response_queue
                            [Ok result (IdInt (id_generator c))] c2))).
  { unfold c3, step, sock_handler_turn. rewrite Ht2, Hk2.
    rewrite (on_recv_one_frame decode parse_json reply c2 Hn Hd2).
    rewrite (@dispatch_response decode parse_json reply c2 text _ Hc Hdec Hp).
    rewrite Hrq2. reflexivity. }
  split; [rewrite E1; reflexivity|].
  split; [exact Hq1|].
  split; [rewrite Hw2, Hc1; reflexivity|].
  split; [exact Hq2|].
  split; [rewrite E3; reflexivity|].
  split; [rewrite E3; reflexivity|].
  split.
  - rewrite (@await_response_ready cmd (IdInt (id_generator c))
               (Ok result (IdInt (id_generator c))) [] c3).
    + apply parse_response_ok_match. apply rpc_id_eqb_eq. reflexivity.
    + rewrite E3. reflexivity.
    + intros c'. apply getitem_id_request.
    + rewrite E3. reflexivity.
  - split.
    + unfold status_get, _send.
      rewrite (call_alive "StatusGet" JNull logging_error c Ht).
      rewrite (call_alive "StatusGet" JNull print c Ht). reflexivity.
    + intros user password. unfold logon, _send.
      rewrite (call_alive "Logon" _ logging_error c Ht).
      rewrite (call_alive "Logon" _ print c Ht). reflexivity.
Qed.
End RoundTrip.

Lemma call_round_trip_witness :
  await_response (request_dict "StatusGet" JNull 1)
    (step ascii_decode sample_parse_json (IoRecv (sample_reply ++ [x00]))
       (step ascii_decode sample_parse_json IoWouldBlock
          (snd (_send "StatusGet" JNull connected_core))))
  = (Done sample_result,
     set_response_is_ready false
       (set_response_queue []
          (step ascii_decode sample_parse_json
             (IoRecv (sample_reply ++ [x00]))
             (step ascii_decode sample_parse_json IoWouldBlock
                (snd (_send "StatusGet" JNull connected_core)))))).
Proof.
  pose proof (@call_round_trip ascii_decode sample_parse_json
                "StatusGet" JNull sample_reply sample_response_text
                sample_result connected_core) as H.
  cbv zeta in H.
  refine (proj1 (proj2 (proj2 (proj2 (proj2 (proj2 (proj2
            (H eq_refl eq_refl eq_refl eq_refl eq_refl eq_refl eq_refl
               _ _ _ _)))))))).
  - apply not_in_by_scan. vm_compute. reflexivity.
  - vm_compute. reflexivity.
  - vm_compute. reflexivity.
  - vm_compute. reflexivity.
Defined.

(** ** The signal and the queue of responses *)

(** X2.  The response-ready signal is a flag, not a count.  A caller that
    finds the signal raised and a result with its id at the head of the
    response queue returns that result and lowers the signal, whatever
    else the queue holds: the responses behind it stay queued, and the
    next caller to wait is parked although the queue is not empty. *)
Theorem result_lowers_signal_for_all method params n result rest cmd' c :
  response_is_ready c = true ->
  response_queue c = Ok result (IdInt n) :: rest ->
  let c' := set_response_is_ready false (set_response_queue rest c) in
  await_response (request_dict method params n) c = (Done result, c')
  /\ response_queue c' = rest
  /\ await_response cmd' c' = (Blocked, c').
Proof.
  intros Hr Hq c'. split; [|split; [reflexivity|]].
  - rewrite (@await_response_ready (request_dict method params n) (IdInt n)
               (Ok result (IdInt n)) rest c Hr
               (getitem_id_request method params n) Hq).
    apply parse_response_ok_match. apply rpc_id_eqb_eq. reflexivity.
  - apply await_response_parked. reflexivity.
Qed.

Lemma result_lowers_signal_for_all_witness :
  let c := set_response_is_ready true
             (set_response_queue
                [Ok sample_result (IdInt 1); Ok sample_result (IdInt 2)]
                connected_core) in
  let c' := set_response_is_ready false
              (set_response_queue [Ok sample_result (IdInt 2)] c) in
  await_response (request_dict "StatusGet" JNull 1) c = (Done sample_result, c')
  /\ response_queue c' = [Ok sample_result (IdInt 2)]
  /\ await_response (request_dict "StatusGet" JNull 2) c' = (Blocked, c').
Proof.
  exact (@result_lowers_signal_for_all "StatusGet" JNull 1 sample_result
           [Ok sample_result (IdInt 2)] (request_dict "StatusGet" JNull 2)
           (set_response_is_ready true
              (set_response_queue
                 [Ok sample_result (IdInt 1); Ok sample_result (IdInt 2)]
                 connected_core))
           eq_refl eq_refl).
Defined.

(** X3.  A result with another id is taken off the response queue before
    the comparison: the call raises the LookupError, the response is gone
    and the signal is still raised, so the next caller does not wait for
    the worker and takes whatever the queue holds next. *)
Theorem mismatch_consumes_response method params n result id rest c :
  response_is_ready c = true ->
  response_queue c = Ok result id :: rest ->
  id <> IdInt n ->
  let c' := set_response_queue rest c in
  await_response (request_dict method params n) c
  = (Raised (LookupError "Response has incorrect ID."), c')
  /\ response_queue c' = rest
  /\ response_is_ready c' = true
  /\ fst (response_is_ready_wait c') = Done tt.
Proof.
  intros Hr Hq Hne c'.
  split; [|split; [reflexivity|split; [exact Hr|]]].
  - rewrite (@await_response_ready (request_dict method params n) (IdInt n)
               (Ok result id) rest c Hr
               (getitem_id_request method params n) Hq).
    apply parse_response_ok_mismatch.
    destruct (rpc_id_eqb id (IdInt n)) eqn:E; [|reflexivity].
    apply rpc_id_eqb_eq in E. contradiction.
  - unfold response_is_ready_wait, bind, get. subst c'. simpl.
    rewrite Hr. reflexivity.
Qed.

Lemma mismatch_consumes_response_witness :
  let c := set_response_is_ready true
             (set_response_queue [Ok sample_result (IdInt 7)]
                connected_core) in
  await_response (request_dict "StatusGet" JNull 1) c
  = (Raised (LookupError "Response has incorrect ID."),
     set_response_queue [] c).
Proof.
  refine (proj1 (@mismatch_consumes_response "StatusGet" JNull 1
                   sample_result (IdInt 7) []
                   (set_response_is_ready true
                      (set_response_queue [Ok sample_result (IdInt 7)]
                         connected_core))
                   eq_refl eq_refl _)).
  discriminate.
Defined.

(** ** The receive buffer of the worker *)

Lemma rest_of_no_delimiter data : ~ In x00 (rest_of data).
Proof. apply last_split_no_sep. Qed.

Lemma core_eta c : set_sock_handler_data (sock_handler_data c) c = c.
Proof. destruct c; reflexivity. Qed.

Section BufferFacts.
Variable decode : bytes -> option string.
Variable parse_json : string -> option parsed_json.

Lemma dispatch_keeps_buffer response c :
  sock_handler_data (snd (dispatch decode parse_json response c))
  = sock_handler_data c.
Proof.
  unfold dispatch, bind, response_decode, do_parse_json, logging_info,
    emit, response_queue_put, modify, ret, raise.
  destruct (0 <? count response (lit "EngineStatus"));
    destruct (decode response) as [text|]; try reflexivity.
  destruct (parse_json text); reflexivity.
Qed.

(** The loop over the frames leaves the buffer of the object alone and
    hands back the remainder when no frame raises. *)
Lemma handle_frames_buffer frames rest :
  forall c,
    sock_handler_data
      (snd (handle_frames (dispatch decode parse_json) frames rest c))
    = sock_handler_data c
    /\ (forall r,
           fst (handle_frames (dispatch decode parse_json) frames rest c)
           = Done r -> r = rest).
Proof.
  induction frames as [|f frames IH]; intros c.
  - split; [reflexivity|]. intros r [= <-]. reflexivity.
  - cbn [handle_frames]. unfold bind.
    pose proof (dispatch_keeps_buffer f c) as Hd.
    destruct (dispatch decode parse_json f c) as [[[]| e |] c'];
      simpl in Hd.
    + destruct (IH c') as [Hb Hr]. split; [congruence|exact Hr].
    + split; [exact Hd|discriminate].
    + split; [exact Hd|discriminate].
Qed.

(** After a read the buffer is the part of old buffer and chunk behind
    the last delimiter, or, when a frame raised, what it was. *)
Lemma on_recv_buffer chunk c :
  let c' := snd (on_recv decode parse_json chunk c) in
  sock_handler_data c' = rest_of (sock_handler_data c ++ chunk)
  \/ sock_handler_data c' = sock_handler_data c.
Proof.
  cbv zeta. unfold on_recv, bind, get. rewrite recv_chunk_spec.
  destruct (handle_frames_buffer
              (frames_of (sock_handler_data c ++ chunk))
              (rest_of (sock_handler_data c ++ chunk)) c) as [Hb Hr].
  destruct (handle_frames (dispatch decode parse_json) _ _ c)
    as [[r| e |] c']; simpl in *.
  - left. unfold modify. simpl. apply Hr. reflexivity.
  - right. exact Hb.
  - right. exact Hb.
Qed.

(** Only a read that returns data touches the buffer. *)
Lemma step_keeps_buffer ev c :
  (forall chunk, ev <> IoRecv chunk) ->
  sock_handler_data (step decode parse_json ev c) = sock_handler_data c.
Proof.
  intros Hev. destruct ev as [chunk| | |cmd|].
  - exfalso. exact (Hev chunk eq_refl).
  - core_fields c. unfold step, sock_handler_turn. cbn [sock_thread].
    destruct sock_thread0 as [[| | |e0]|]; try reflexivity.
    destruct (sock_handler_continues _); [|reflexivity].
    unfold on_would_block, bind, get, _send_cmd, sock_sendall.
    cbn [msg_queue keepalive_event fst snd bind get sock].
    destruct sock0 as [[w cn nb cl]|]; [destruct cl|];
      destruct msg_queue0 as [|cmd q]; destruct keepalive_event0;
      reflexivity.
  - core_fields c. unfold step, keepalive_turn. cbn [keepalive_thread].
    destruct keepalive_thread0 as [[| | |e0]|]; try reflexivity.
    destruct (keepalive_continues _); [|reflexivity].
    unfold keepalive_body, bind, get. cbn [noop_timer fst snd].
    destruct (noop_timer0 =? 0)%Z; reflexivity.
  - reflexivity.
  - core_fields c. unfold step, no_op, sock_thread_is_alive.
    unfold bind, get, ret. cbn [sock_thread keepalive_event fst snd].
    destruct sock_thread0 as [t|]; [|reflexivity].
    cbn [keepalive_event].
    destruct (is_alive t && negb keepalive_event0); reflexivity.
Qed.

Lemma step_buffer_no_delimiter ev c :
  ~ In x00 (sock_handler_data c) ->
  ~ In x00 (sock_handler_data (step decode parse_json ev c)).
Proof.
  intros Hn.
  destruct ev as [chunk| | |cmd|];
    try (rewrite step_keeps_buffer by discriminate; exact Hn).
  unfold step, sock_handler_turn.
  destruct (sock_thread c) as [[| | |e0]|]; try exact Hn.
  destruct (sock_handler_continues c); [|exact Hn].
  pose proof (on_recv_buffer chunk c) as H. cbv zeta in H.
  destruct (on_recv decode parse_json chunk c) as [[[]| e |] c'];
    simpl in *; destruct H as [H|H]; rewrite H;
    exact Hn || apply rest_of_no_delimiter.
Qed.

(** A read without a delimiter only extends the buffer. *)
Lemma step_recv_partial chunk c :
  sock_thread c = Some Running -> sock_handler_continues c = true ->
  ~ In x00 (sock_handler_data c) -> ~ In x00 chunk ->
  step decode parse_json (IoRecv chunk) c
  = set_sock_handler_data (sock_handler_data c ++ chunk) c.
Proof.
  intros Ht Hc Hd Hn. unfold step, sock_handler_turn. rewrite Ht, Hc.
  unfold on_recv, bind, get. rewrite recv_chunk_spec.
  assert (Hno : ~ In x00 (sock_handler_data c ++ chunk))
    by (rewrite in_app_iff; tauto).
  rewrite (frames_of_no_sep _ Hno), (rest_of_no_sep _ Hno).
  reflexivity.
Qed.

(** X4.  Between two reads the buffer of the worker never holds a
    delimiter: whatever the threads and the callers do and whatever the
    peer sends, every byte up to the last delimiter has left the buffer
    when a read is over.  A read that brings no delimiter handles no
    frame and changes nothing but the buffer, to which it appends. *)
Theorem buffer_holds_no_delimiter :
  (forall tr c,
      ~ In x00 (sock_handler_data c) ->
      ~ In x00 (sock_handler_data (run decode parse_json tr c)))
  /\ (forall chunk c,
         sock_thread c = Some Running -> sock_handler_continues c = true ->
         ~ In x00 (sock_handler_data c) -> ~ In x00 chunk ->
         step decode parse_json (IoRecv chunk) c
         = set_sock_handler_data (sock_handler_data c ++ chunk) c).
Proof.
  split; [|exact step_recv_partial].
  unfold run. induction tr as [|ev tr IH]; intros c Hn; [exact Hn|].
  simpl. apply IH. apply step_buffer_no_delimiter. exact Hn.
Qed.

(** The read that returns no byte: the peer has closed the stream. *)
Lemma step_recv_nothing c :
  sock_handler_continues c = true -> ~ In x00 (sock_handler_data c) ->
  step decode parse_json (IoRecv []) c = c.
Proof.
  intros Hc Hd. unfold step, sock_handler_turn.
  destruct (sock_thread c) as [[| | |e0]|] eqn:Ht; try reflexivity.
  rewrite Hc.
  pose proof (step_recv_partial [] c Ht Hc Hd (fun H => H)) as E.
  unfold step, sock_handler_turn in E. rewrite Ht, Hc in E.
  rewrite E, app_nil_r. apply core_eta.
Qed.

Lemma run_recv_nothing n c :
  sock_handler_continues c = true -> ~ In x00 (sock_handler_data c) ->
  run decode parse_json (repeat (IoRecv []) n) c = c.
Proof.
  intros Hc Hd. unfold run. induction n as [|k IH]; [reflexivity|].
  change (repeat (IoRecv []) (S k))
    with (IoRecv [] :: repeat (IoRecv []) k).
  cbn [fold_left]. rewrite (step_recv_nothing c Hc Hd). exact IH.
Qed.

Lemma join_recv_nothing n c :
  sock_thread c = Some Running ->
  sock_handler_continues c = true -> ~ In x00 (sock_handler_data c) ->
  sock_thread_join decode parse_json (repeat (IoRecv []) n) c = (Blocked, c).
Proof.
  intros Ht Hc Hd. induction n as [|k IH].
  - simpl. rewrite Ht. reflexivity.
  - change (repeat (IoRecv []) (S k))
      with (IoRecv [] :: repeat (IoRecv []) k).
    rewrite (@join_running decode parse_json _ _ c Ht).
    rewrite (step_recv_nothing c Hc Hd). exact IH.
Qed.

(** X5.  The worker does not see the end of the stream.  A read that
    returns no byte changes nothing, so a worker with a request still
    queued goes on reading: it never comes to write the request, a caller
    of join stays parked however many such reads follow, and close, which
    has requested shutdown, stays parked with nothing written and the
    socket still open. *)
Theorem end_of_stream_is_not_seen c n :
  sock_thread c = Some Running ->
  ~ In x00 (sock_handler_data c) ->
  msg_queue c <> [] ->
  step decode parse_json (IoRecv []) c = c
  /\ run decode parse_json (repeat (IoRecv []) n) c = c
  /\ sock_thread_join decode parse_json (repeat (IoRecv []) n) c
     = (Blocked, c)
  /\ close decode parse_json (repeat (IoRecv []) n) c
     = (Blocked, set_stop_threads true c).
Proof.
  intros Ht Hd Hq.
  assert (Hc : forall b, sock_handler_continues (set_stop_threads b c) = true).
  { intros b. unfold sock_handler_continues. simpl.
    destruct (msg_queue c); [contradiction|apply orb_true_r]. }
  assert (Hc0 : sock_handler_continues c = true).
  { unfold sock_handler_continues.
    destruct (msg_queue c); [contradiction|apply orb_true_r]. }
  split; [exact (step_recv_nothing c Hc0 Hd)|]. split; [|split].
  - exact (run_recv_nothing n c Hc0 Hd).
  - exact (join_recv_nothing n c Ht Hc0 Hd).
  - unfold close, bind, modify. cbn [fst snd].
    rewrite (join_recv_nothing n (set_stop_threads true c) Ht (Hc true) Hd).
    reflexivity.
Qed.

End BufferFacts.

Lemma buffer_holds_no_delimiter_witness :
  ~ In x00 (sock_handler_data
              (run ascii_decode sample_parse_json
                 [IoRecv (lit "abc"); IoRecv (sample_reply ++ [x00] ++ lit "x")]
                 connected_core)).
Proof.
  apply (proj1 (buffer_holds_no_delimiter ascii_decode sample_parse_json)).
  simpl. tauto.
Defined.

Lemma end_of_stream_is_not_seen_witness :
  close ascii_decode sample_parse_json (repeat (IoRecv []) 5) busy_core
  = (Blocked, set_stop_threads true busy_core).
Proof.
  refine (proj2 (proj2 (proj2 (@end_of_stream_is_not_seen ascii_decode
                                 sample_parse_json busy_core 5
                                 eq_refl _ _)))).
  - simpl. tauto.
  - discriminate.
Defined.


(** ** The countdown *)

Section CountdownFacts.
Variable decode : bytes -> option string.
Variable parse_json : string -> option parsed_json.

(** What a step can do to the countdown: leave it, reset it, or take one
    off when it is not zero. *)
Lemma step_timer ev c :
  let t' := noop_timer (step decode parse_json ev c) in
  t' = noop_timer c \/ t' = 29%Z
  \/ (noop_timer c <> 0%Z /\ t' = (noop_timer c - 1)%Z).
Proof.
  cbv zeta. destruct ev as [chunk| | |cmd|].
  - left. pose proof (step_recv_transport decode parse_json chunk c) as T.
    cbv zeta in T. tauto.
  - core_fields c. unfold step, sock_handler_turn. cbn [sock_thread].
    destruct sock_thread0 as [[| | |e0]|]; try (left; reflexivity).
    destruct (sock_handler_continues _); [|left; reflexivity].
    unfold on_would_block, bind, get, _send_cmd, sock_sendall.
    cbn [msg_queue keepalive_event fst snd bind get sock].
    destruct sock0 as [[w cn nb cl]|]; [destruct cl|];
      destruct msg_queue0 as [|cmd q]; destruct keepalive_event0; cbn;
      (left; reflexivity) || (right; left; reflexivity).
  - core_fields c. unfold step, keepalive_turn. cbn [keepalive_thread].
    destruct keepalive_thread0 as [[| | |e0]|]; try (left; reflexivity).
    destruct (keepalive_continues _); [|left; reflexivity].
    unfold keepalive_body, bind, get. cbn [noop_timer fst snd].
    destruct (noop_timer0 =? 0)%Z eqn:E; cbn.
    + right. left. reflexivity.
    + right. right. apply Z.eqb_neq in E. split; [exact E|reflexivity].
  - left. reflexivity.
  - core_fields c. unfold step, no_op, sock_thread_is_alive.
    unfold bind, get, ret. cbn [sock_thread keepalive_event fst snd].
    destruct sock_thread0 as [t|]; [|left; reflexivity].
    cbn [keepalive_event].
    destruct (is_alive t && negb keepalive_event0); cbn;
      (left; reflexivity) || (right; left; reflexivity).
Qed.

(** X7.  The countdown never leaves the range from 0 to 29: whatever the
    workers, the callers and the peer do, a countdown within the range
    stays within it, so the test for zero of keepalive is never stepped
    over.  The countdown of a new object and of a connected one is in the
    range. *)
Theorem countdown_stays_in_range :
  (forall tr c,
      countdown_in_range c ->
      countdown_in_range (run decode parse_json tr c))
  /\ countdown_in_range init
  /\ (forall reachable c,
         countdown_in_range c ->
         countdown_in_range (snd (connect reachable c))).
Proof.
  split; [|split].
  - unfold run, countdown_in_range.
    induction tr as [|ev tr IH]; intros c Hr; [exact Hr|].
    simpl. apply IH. pose proof (step_timer ev c) as T. cbv zeta in T. lia.
  - unfold countdown_in_range. simpl. lia.
  - intros reachable c. unfold countdown_in_range. core_fields c.
    unfold connect, bind, get, modify, logging_info, logging_error, emit,
      ret, raise.
    cbn [sock_thread fst snd log noop_timer set_log].
    destruct sock_thread0 as [[| | |e0]|]; destruct reachable; cbn;
      intros H; exact H.
Qed.

Lemma run_app tr tr' c :
  run decode parse_json (tr ++ tr') c
  = run decode parse_json tr' (run decode parse_json tr c).
Proof. unfold run. apply fold_left_app. Qed.

Lemma run_cons ev tr c :
  run decode parse_json (ev :: tr) c
  = run decode parse_json tr (step decode parse_json ev c).
Proof. reflexivity. Qed.

(** The turn of a running keepalive whose loop goes on. *)
Lemma step_tick_eq c :
  keepalive_thread c = Some Running -> keepalive_continues c = true ->
  step decode parse_json Tick c
  = if (noop_timer c =? 0)%Z
    then set_log (log c ++ [LogInfo "NoOp - keep alive"])
           (set_noop_timer 29 (set_keepalive_event true c))
    else set_noop_timer (noop_timer c - 1)%Z c.
Proof.
  intros Ht Hc. unfold step, keepalive_turn. rewrite Ht, Hc.
  unfold keepalive_body, bind, get.
  destruct (noop_timer c =? 0)%Z; reflexivity.
Qed.

Lemma set_noop_timer_twice t t' c :
  set_noop_timer t (set_noop_timer t' c) = set_noop_timer t c.
Proof. destruct c; reflexivity. Qed.

(** Ticks before the countdown has run out only count down. *)
Lemma quiet_ticks k :
  forall c,
    keepalive_thread c = Some Running -> keepalive_continues c = true ->
    (Z.of_nat k <= noop_timer c)%Z ->
    run decode parse_json (repeat Tick k) c
    = set_noop_timer (noop_timer c - Z.of_nat k)%Z c.
Proof.
  induction k as [|k IH]; intros c Ht Hc Hk.
  - simpl. rewrite Z.sub_0_r. destruct c; reflexivity.
  - change (repeat Tick (S k)) with (Tick :: repeat Tick k).
    rewrite run_cons. rewrite (step_tick_eq c Ht Hc).
    assert (E : (noop_timer c =? 0)%Z = false) by (apply Z.eqb_neq; lia).
    rewrite E. rewrite IH.
    + rewrite set_noop_timer_twice. f_equal.
      cbn [noop_timer set_noop_timer]. lia.
    + exact Ht.
    + exact Hc.
    + simpl. lia.
Qed.

(** The tick that finds the countdown run out. *)
Lemma ticks_until_flag c :
  keepalive_thread c = Some Running -> keepalive_continues c = true ->
  (0 <= noop_timer c)%Z ->
  run decode parse_json (repeat Tick (S (Z.to_nat (noop_timer c)))) c
  = set_log (log c ++ [LogInfo "NoOp - keep alive"])
      (set_noop_timer 29 (set_keepalive_event true c)).
Proof.
  intros Ht Hc H0.
  replace (S (Z.to_nat (noop_timer c)))
    with (Z.to_nat (noop_timer c) + 1) by lia.
  rewrite repeat_app, run_app.
  rewrite (quiet_ticks (Z.to_nat (noop_timer c)) c Ht Hc)
    by (rewrite Z2Nat.id; lia).
  rewrite Z2Nat.id by exact H0. rewrite Z.sub_diag.
  cbn [repeat]. rewrite run_cons. rewrite step_tick_eq by assumption.
  destruct c; reflexivity.
Qed.

(** X8.  A quiet connection raises the ping flag after exactly one tick
    more than the countdown shows, and not before.  While keepalive runs
    and its loop goes on, a number of ticks up to the countdown only takes
    that number off the countdown; one tick more raises the flag, resets
    the countdown to 29 and logs the keep-alive message.  From the
    countdown 29 this is the thirtieth tick. *)
Theorem flag_rises_after_countdown c k :
  keepalive_thread c = Some Running -> keepalive_continues c = true ->
  (0 <= noop_timer c)%Z ->
  (Z.of_nat k <= noop_timer c ->
   run decode parse_json (repeat Tick k) c
   = set_noop_timer (noop_timer c - Z.of_nat k) c)%Z
  /\ run decode parse_json (repeat Tick (S (Z.to_nat (noop_timer c)))) c
     = set_log (log c ++ [LogInfo "NoOp - keep alive"])
         (set_noop_timer 29 (set_keepalive_event true c)).
Proof.
  intros Ht Hc H0. split; [apply quiet_ticks; assumption|].
  apply ticks_until_flag; assumption.
Qed.

(** One period of an idle connection: thirty ticks and an idle turn of
    the worker. *)
Lemma idle_period c :
  live c -> msg_queue c = [] -> keepalive_event c = false ->
  noop_timer c = 29%Z ->
  let c' := run decode parse_json (repeat Tick 30 ++ [IoWouldBlock]) c in
  live c' /\ msg_queue c' = [] /\ keepalive_event c' = false
  /\ noop_timer c' = 29%Z
  /\ written c' = written c ++ wire_bytes noop_cmd.
Proof.
  intros (Ht & Hk & Ho & Hs) Hq Hf Hn. cbv zeta.
  assert (Hc : keepalive_continues c = true)
    by (unfold keepalive_continues; rewrite Hs, Ht; reflexivity).
  assert (H0 : (0 <= noop_timer c)%Z) by lia.
  pose proof (ticks_until_flag c Hk Hc H0) as E.
  rewrite Hn in E. change (S (Z.to_nat 29)) with 30 in E.
  rewrite run_app, E. rewrite run_cons. unfold run at 1. cbn [fold_left].
  set (c1 := set_log _ _).
  assert (Ht1 : sock_thread c1 = Some Running) by exact Ht.
  assert (Ho1 : sock_open c1 = true) by exact Ho.
  assert (Hc1 : sock_handler_continues c1 = true)
    by (unfold sock_handler_continues; simpl; rewrite Hs; reflexivity).
  pose proof (step_idle decode parse_json c1 Ht1 Hc1 Ho1) as T.
  cbv zeta in T.
  assert (Hq1 : msg_queue c1 = []) by exact Hq.
  assert (Hf1 : keepalive_event c1 = true) by reflexivity.
  rewrite Hq1, Hf1 in T. destruct T as (Ht2 & Ho2 & Hq2 & Hw2 & Hf2 & Hn2).
  pose proof (step_pending decode parse_json IoWouldBlock c1 Ho1) as P.
  cbv zeta in P. destruct P as (_ & _ & Hs2 & _).
  assert (Hk2 : keepalive_thread (step decode parse_json IoWouldBlock c1)
                = Some Running).
  { clear - Hk. unfold c1. core_fields c. cbn in Hk. subst.
    unfold step, sock_handler_turn. cbn [sock_thread set_log set_noop_timer
      set_keepalive_event].
    destruct sock_thread0 as [[| | |e0]|]; try reflexivity.
    destruct (sock_handler_continues _); [|reflexivity].
    unfold on_would_block, bind, get, _send_cmd, sock_sendall.
    cbn [msg_queue keepalive_event fst snd bind get sock].
    destruct sock0 as [[w cn nb cl]|]; [destruct cl|];
      destruct msg_queue0 as [|cmd q]; reflexivity. }
  repeat split; try assumption.
  rewrite Hs2. exact Hs.
Qed.

(** X9.  An idle live connection sends one heartbeat every thirty ticks.
    With the Outbound Queue empty, the flag lowered and the countdown at
    29, every period of thirty ticks of keepalive and one idle turn of the
    worker writes exactly one heartbeat and leads back to such a state;
    after any number of periods the socket has received that many
    heartbeats and nothing else. *)
Theorem idle_connection_heartbeats n :
  forall c,
    live c -> msg_queue c = [] -> keepalive_event c = false ->
    noop_timer c = 29%Z ->
    let c' := run decode parse_json
                (concat (repeat (repeat Tick 30 ++ [IoWouldBlock]) n)) c in
    written c' = written c ++ concat (repeat (wire_bytes noop_cmd) n)
    /\ live c' /\ msg_queue c' = [] /\ keepalive_event c' = false
    /\ noop_timer c' = 29%Z.
Proof.
  induction n as [|n IH]; intros c Hl Hq Hf Hn; cbv zeta.
  - simpl. rewrite app_nil_r. auto.
  - change (repeat (repeat Tick 30 ++ [IoWouldBlock]) (S n))
      with ((repeat Tick 30 ++ [IoWouldBlock])
              :: repeat (repeat Tick 30 ++ [IoWouldBlock]) n).
    change (repeat (wire_bytes noop_cmd) (S n))
      with (wire_bytes noop_cmd :: repeat (wire_bytes noop_cmd) n).
    cbn [concat]. rewrite run_app.
    pose proof (@idle_period c Hl Hq Hf Hn) as P. cbv zeta in P.
    destruct P as (Hl1 & Hq1 & Hf1 & Hn1 & Hw1).
    pose proof (IH _ Hl1 Hq1 Hf1 Hn1) as Q. cbv zeta in Q.
    destruct Q as (Hw2 & Hl2 & Hq2 & Hf2 & Hn2).
    repeat split; try assumption; try (apply Hl2).
    rewrite Hw2, Hw1, app_assoc. reflexivity.
Qed.
End CountdownFacts.

Lemma countdown_stays_in_range_witness :
  countdown_in_range
    (run ascii_decode sample_parse_json chatty_trace connected_core).
Proof.
  apply (proj1 (countdown_stays_in_range ascii_decode sample_parse_json)).
  unfold countdown_in_range. simpl. lia.
Defined.

Lemma flag_rises_after_countdown_witness :
  run ascii_decode sample_parse_json (repeat Tick 30) connected_core
  = set_log (log connected_core ++ [LogInfo "NoOp - keep alive"])
      (set_noop_timer 29 (set_keepalive_event true connected_core)).
Proof.
  refine (proj2 (@flag_rises_after_countdown ascii_decode sample_parse_json
                   connected_core 0 eq_refl eq_refl _)).
  simpl. lia.
Defined.

Lemma idle_connection_heartbeats_witness :
  written (run ascii_decode sample_parse_json
             (concat (repeat (repeat Tick 30 ++ [IoWouldBlock]) 2))
             connected_core)
  = written connected_core ++ concat (repeat (wire_bytes noop_cmd) 2).
Proof.
  refine (proj1 (@idle_connection_heartbeats ascii_decode sample_parse_json 2
                   connected_core _ eq_refl eq_refl eq_refl)).
  unfold live. repeat split.
Defined.

(** ** The life of a connection: its edges *)

Lemma no_live_worker_not_alive c t :
  no_live_worker c = true -> sock_thread c = Some t -> is_alive t = false.
Proof.
  unfold no_live_worker. intros H Ht. rewrite Ht in H.
  apply negb_true_iff. exact H.
Qed.

Section LifecycleFacts.
Variable decode : bytes -> option string.
Variable parse_json : string -> option parsed_json.

(** X10.  Before the first connect there is no worker thread object, and
    every public method that asks it for something raises the
    AttributeError of that attribute access instead of reporting that
    there is no connection: the three call operations and [no_op] on
    [is_alive], [close] on [join].  A call has by then consumed a request
    id but queued nothing; close has by then requested shutdown and has
    not touched the socket. *)
Theorem before_connect_methods_raise c :
  sock_thread c = None ->
  let no_attr :=
    AttributeError "'NoneType' object has no attribute 'is_alive'" in
  let c1 := set_id_generator (id_generator c + 1)%Z c in
  (forall method params, _send method params c = (Raised no_attr, c1))
  /\ status_get c = (Raised no_attr, c1)
  /\ (forall user password, logon user password c = (Raised no_attr, c1))
  /\ no_op c = (Raised no_attr, c)
  /\ (forall script,
         close decode parse_json script c
         = (Raised
              (AttributeError "'NoneType' object has no attribute 'join'"),
            set_stop_threads true c))
  /\ msg_queue c1 = msg_queue c.
Proof.
  intros Ht no_attr c1.
  assert (Hs : forall report cmd,
             submit_and_await report cmd c1 = (Raised no_attr, c1))
    by (intros; apply submit_and_await_no_thread; exact Ht).
  split; [|split; [|split; [|split; [|split]]]].
  - intros method params. unfold _send, bind. rewrite build_cmd_spec.
    apply Hs.
  - unfold status_get, bind. rewrite build_cmd_spec. apply Hs.
  - intros user password. unfold logon, bind. rewrite build_cmd_spec.
    apply Hs.
  - unfold no_op, sock_thread_is_alive, bind, get. rewrite Ht. reflexivity.
  - intros script. unfold close, bind, modify. cbn [fst snd].
    destruct script; simpl; rewrite Ht; reflexivity.
  - reflexivity.
Qed.

(** X11.  A connect that is refused raises out of the middle of the
    method: the new socket and the two thread objects are already stored,
    no thread was started and no flag was cleared.  On that object the
    guard of connect lets a next connect try again, a call returns [None]
    as without a connection, and close raises the RuntimeError of joining
    a thread that was never started, with shutdown requested and the
    socket left open. *)
Theorem refused_connect_leaves_threads_unstarted c :
  no_live_worker c = true ->
  let c1 := snd (connect false c) in
  fst (connect false c) = Raised (OSError "Connection refused")
  /\ sock c1 = Some new_socket
  /\ sock_thread c1 = Some Created /\ keepalive_thread c1 = Some Created
  /\ stop_threads c1 = stop_threads c
  /\ response_is_ready c1 = response_is_ready c
  /\ keepalive_event c1 = keepalive_event c
  /\ no_live_worker c1 = true
  /\ fst (status_get c1) = Done JNull
  /\ (forall script,
         close decode parse_json script c1
         = (Raised (RuntimeError "cannot join thread before it is started"),
            set_stop_threads true c1))
  /\ sock_thread (snd (connect true c1)) = Some Running.
Proof.
  intros Hg c1.
  assert (E : connect false c
              = (Raised (OSError "Connection refused"),
                 set_keepalive_thread (Some Created)
                   (set_sock_thread (Some Created)
                      (set_sock (Some new_socket)
                         (set_log (log c ++ [LogInfo "Connecting to Core..."])
                            c))))).
  { unfold connect, logging_info, emit. unfold bind at 1. unfold modify at 1.
    unfold bind at 1. unfold get. unfold no_live_worker in Hg.
    cbn [sock_thread set_log]. rewrite Hg. reflexivity. }
  unfold c1. rewrite E. cbn [fst snd].
  do 8 (split; [reflexivity|]). split; [|split; [|reflexivity]].
  - unfold status_get, bind. rewrite build_cmd_spec.
    rewrite (@submit_and_await_not_alive logging_error _ _ Created);
      reflexivity.
  - intros script. unfold close, bind, modify. cbn [fst snd].
    destruct script; reflexivity.
Qed.

(** X12.  Once the worker has ended, by the test of its loop or by an
    exception, close does not wait and does not flush: whatever the other
    threads would do, it returns [None] with the socket closed, the
    Outbound Queue as it was and nothing more written.  A second close
    returns [None] as well. *)
Theorem close_after_worker_ended script script' c s :
  sock_thread c = Some Finished \/ (exists e, sock_thread c = Some (Died e)) ->
  sock c = Some s ->
  let c' := snd (close decode parse_json script c) in
  fst (close decode parse_json script c) = Done JNull
  /\ msg_queue c' = msg_queue c
  /\ written c' = written c
  /\ sock_open c' = false
  /\ stop_threads c' = true
  /\ log c' = log c ++ [LogInfo "Closed connection."]
  /\ fst (close decode parse_json script' c') = Done JNull.
Proof.
  intros Ht Hs c'.
  assert (E : forall scr c0 s0,
             (sock_thread c0 = Some Finished
              \/ exists e, sock_thread c0 = Some (Died e)) ->
             sock c0 = Some s0 ->
             close decode parse_json scr c0
             = (Done JNull,
                set_log (log c0 ++ [LogInfo "Closed connection."])
                  (set_sock (Some {| wire := wire s0;
                                     connected := connected s0;
                                     nonblocking := nonblocking s0;
                                     closed := true |})
                     (set_stop_threads true c0)))).
  { intros scr c0 s0 Ht0 Hs0. unfold close, bind, modify. cbn [fst snd].
    rewrite (@join_ended decode parse_json scr (set_stop_threads true c0) Ht0).
    unfold sock_close, bind, get, logging_info, emit, modify, ret.
    cbn [sock set_stop_threads]. rewrite Hs0. reflexivity. }
  unfold c'. rewrite (E script c s Ht Hs). cbn [fst snd].
  repeat split.
  - unfold written. simpl. rewrite Hs. reflexivity.
  - erewrite E; [reflexivity|exact Ht|reflexivity].
Qed.

(** A frame that does not decode, or that is no event frame and does not
    parse, raises out of the loop body with the core as it was. *)
Lemma dispatch_raises frame c :
  decode frame = None
  \/ (count frame engine_status = 0
      /\ exists text, decode frame = Some text /\ parse_json text = None) ->
  exists e, dispatch decode parse_json frame c = (Raised e, c).
Proof.
  unfold dispatch. fold engine_status.
  unfold bind, response_decode, do_parse_json, raise, ret.
  intros [Hd|(Hc & text & Hd & Hp)].
  - rewrite Hd. destruct (0 <? count frame engine_status); eexists;
      reflexivity.
  - rewrite Hc, Hd, Hp. eexists. reflexivity.
Qed.

(** The read that delivers a bad frame first ends the thread and changes
    nothing else. *)
Lemma step_bad_frame frame more c :
  sock_thread c = Some Running -> sock_handler_continues c = true ->
  sock_handler_data c = [] -> ~ In x00 frame ->
  decode frame = None
  \/ (count frame engine_status = 0
      /\ exists text, decode frame = Some text /\ parse_json text = None) ->
  exists e,
    step decode parse_json (IoRecv (frame ++ [x00] ++ more)) c
    = set_sock_thread (Some (Died e)) c.
Proof.
  intros Ht Hc Hd Hn Hbad.
  destruct (@dispatch_raises frame c Hbad) as [e He].
  exists e. unfold step, sock_handler_turn. rewrite Ht, Hc.
  unfold on_recv, bind at 1. unfold get. rewrite Hd.
  unfold bind at 1. rewrite recv_chunk_spec.
  replace ([] ++ frame ++ [x00] ++ more)
    with ((frame ++ [x00]) ++ more)
    by (rewrite <- app_assoc; reflexivity).
  rewrite frames_of_app.
  assert (Hf : frames_of (frame ++ [x00]) = [frame]).
  { unfold frames_of.
    replace (frame ++ [x00]) with (delimited [frame] ++ [])
      by (unfold delimited; simpl; rewrite !app_nil_r; reflexivity).
    rewrite split_delimited by (repeat constructor; tauto || exact Hn).
    reflexivity. }
  rewrite Hf. cbn [app handle_frames]. unfold bind at 1. rewrite He.
  reflexivity.
Qed.

(** X13.  One bad frame ends the connection without closing it.  When a
    read delivers a frame that does not decode, or one without the event
    marker that does not parse, the exception leaves the worker: the
    thread has died with the core otherwise as it was, so the frames
    behind the bad one in the same read are never handled.  From then on
    the turns of the worker do nothing, queued requests are never written,
    keepalive leaves its loop at its next turn, and a call returns [None]
    without queuing anything. *)
Theorem bad_frame_ends_worker frame more c :
  sock_thread c = Some Running -> sock_handler_continues c = true ->
  sock_handler_data c = [] -> ~ In x00 frame ->
  decode frame = None
  \/ (count frame engine_status = 0
      /\ exists text, decode frame = Some text /\ parse_json text = None) ->
  exists e,
    let c' := set_sock_thread (Some (Died e)) c in
    step decode parse_json (IoRecv (frame ++ [x00] ++ more)) c = c'
    /\ (forall chunk, step decode parse_json (IoRecv chunk) c' = c')
    /\ step decode parse_json IoWouldBlock c' = c'
    /\ (keepalive_thread c = Some Running ->
        keepalive_thread (step decode parse_json Tick c') = Some Finished)
    /\ fst (status_get c') = Done JNull
    /\ msg_queue (snd (status_get c')) = msg_queue c.
Proof.
  intros Ht Hc Hd Hn Hbad.
  destruct (@step_bad_frame frame more c Ht Hc Hd Hn Hbad) as [e He].
  exists e. cbv zeta. split; [exact He|split; [|split; [|split; [|split]]]].
  - intros chunk. reflexivity.
  - reflexivity.
  - intros Hk. unfold step, keepalive_turn. cbn [keepalive_thread
      set_sock_thread]. rewrite Hk.
    unfold keepalive_continues. cbn [sock_thread set_sock_thread stop_threads
      is_alive]. rewrite andb_false_r. reflexivity.
  - unfold status_get, bind. rewrite build_cmd_spec.
    rewrite (@submit_and_await_not_alive logging_error _ _ (Died e));
      reflexivity.
  - unfold status_get, bind. rewrite build_cmd_spec.
    rewrite (@submit_and_await_not_alive logging_error _ _ (Died e));
      reflexivity.
Qed.
End LifecycleFacts.

Lemma before_connect_methods_raise_witness :
  status_get init
  = (Raised (AttributeError "'NoneType' object has no attribute 'is_alive'"),
     set_id_generator (id_generator init + 1)%Z init).
Proof.
  exact (proj1 (proj2 (@before_connect_methods_raise ascii_decode
                         sample_parse_json init eq_refl))).
Defined.

Lemma refused_connect_leaves_threads_unstarted_witness :
  fst (connect false init) = Raised (OSError "Connection refused")
  /\ sock (snd (connect false init)) = Some new_socket.
Proof.
  pose proof (@refused_connect_leaves_threads_unstarted ascii_decode
                sample_parse_json init eq_refl) as H.
  cbv zeta in H. split; [exact (proj1 H)|exact (proj1 (proj2 H))].
Defined.

Lemma close_after_worker_ended_witness :
  fst (close ascii_decode sample_parse_json [IoWouldBlock] closed_core)
  = Done JNull.
Proof.
  exact (proj1 (@close_after_worker_ended ascii_decode sample_parse_json
                  [IoWouldBlock] [] closed_core
                  {| wire := []; connected := true; nonblocking := true;
                     closed := true |}
                  (or_introl eq_refl) eq_refl)).
Defined.

Lemma bad_frame_ends_worker_witness :
  exists e,
    step ascii_decode sample_parse_json
      (IoRecv (garbage ++ [x00] ++ sample_reply ++ [x00])) connected_core
    = set_sock_thread (Some (Died e)) connected_core.
Proof.
  destruct (@bad_frame_ends_worker ascii_decode sample_parse_json garbage
              (sample_reply ++ [x00]) connected_core
              eq_refl eq_refl eq_refl) as [e H].
  - apply not_in_by_scan. vm_compute. reflexivity.
  - right. split; [vm_compute; reflexivity|].
    exists "not json". split; vm_compute; reflexivity.
  - exists e. exact (proj1 H).
Defined.

(** ** Delivery of the queued requests *)

Lemma on_would_block_with_sendall :
  on_would_block_with sock_sendall = on_would_block.
Proof. reflexivity. Qed.

Lemma removelast_wire_bytes cmd :
  removelast (wire_bytes cmd) = encode_utf8 (json_dumps cmd).
Proof. unfold wire_bytes. apply removelast_last. Qed.

Lemma requests_of_app l1 l2 :
  requests_of (l1 ++ l2) = requests_of l1 ++ requests_of l2.
Proof. unfold requests_of. rewrite filter_app, map_app. reflexivity. Qed.

Lemma bytes_of_app l1 l2 : bytes_of (l1 ++ l2) = bytes_of l1 ++ bytes_of l2.
Proof. unfold bytes_of. rewrite map_app, concat_app. reflexivity. Qed.

Lemma in_prefix (x : byte) n l : In x (firstn n l) -> In x l.
Proof.
  intros H. rewrite <- (firstn_skipn n l). apply in_or_app. left. exact H.
Qed.

Lemma puts_cons ev tr : puts (ev :: tr) = puts [ev] ++ puts tr.
Proof. unfold puts. simpl. rewrite app_nil_r. reflexivity. Qed.

Section DeliveryFacts.
Variable decode : bytes -> option string.
Variable parse_json : string -> option parsed_json.





(** The turn of the running worker whose [sendall] raises: the request
    was taken from the queue, a part of its bytes is written, and the
    exception ends the thread. *)
Lemma step_send_blocked sent c :
  sock_thread c = Some Running -> sock_handler_continues c = true ->
  sock_open c = true ->
  let c' := step_sys decode parse_json (SendBlocked sent) c in
  sock_open c' = true
  /\ match msg_queue c with
     | cmd :: q =>
         msg_queue c' = q
         /\ written c' = written c ++ firstn sent (removelast (wire_bytes cmd))
         /\ sock_thread c' = Some (Died (OSError "BlockingIOError"))
     | [] =>
         msg_queue c' = []
         /\ if keepalive_event c
            then written c'
                 = written c ++ firstn sent (removelast (wire_bytes noop_cmd))
                 /\ sock_thread c' = Some (Died (OSError "BlockingIOError"))
                 /\ keepalive_event c' = true
            else c' = c
     end.
Proof.
  core_fields c. cbn [sock_thread sock_open sock]. intros Ht Hc Ho.
  subst sock_thread0.
  destruct sock0 as [[w cn nb cl]|]; [|discriminate].
  destruct cl; [discriminate|].
  cbv zeta. unfold step_sys, sock_handler_turn. cbn [sock_thread].
  rewrite Hc. unfold on_would_block_with, bind at 1. unfold get.
  cbn [msg_queue keepalive_event].
  destruct msg_queue0 as [|cmd q].
  - destruct keepalive_event0; repeat split; reflexivity.
  - repeat split; reflexivity.
Qed.








(** *** The log of an execution *)

(** A step that writes no request leaves the queue to the callers. *)
Lemma step_queue_quiet ev c :
  sock_open c = true -> sends_request ev c = false ->
  msg_queue (step decode parse_json ev c) = msg_queue c ++ puts [ev].
Proof.
  intros Ho Hr. destruct ev as [chunk| | |cmd|].
  - pose proof (step_recv_transport decode parse_json chunk c) as T.
    cbv zeta in T. destruct T as (_ & Hq & _). rewrite Hq.
    symmetry. apply app_nil_r.
  - cbn [puts flat_map]. rewrite app_nil_r.
    destruct (sock_thread c) as [[| | |e0]|] eqn:Ht;
      try (rewrite step_io_not_running;
           [reflexivity
           |unfold sock_thread_running; rewrite Ht; reflexivity
           |left; reflexivity]).
    destruct (sock_handler_continues c) eqn:Hc.
    + pose proof (step_idle decode parse_json c Ht Hc Ho) as H.
      cbv zeta in H. destruct H as (_ & _ & H).
      revert Hr. unfold sends_request, sock_thread_running.
      rewrite Ht, Hc, Ho. cbn [is_alive andb].
      destruct (msg_queue c) as [|cmd q]; [|discriminate].
      intros _. tauto.
    + rewrite (@step_io_exit decode parse_json IoWouldBlock c Ht
                 (or_introl eq_refl) Hc).
      reflexivity.
  - pose proof (step_tick_transport decode parse_json c) as T.
    cbv zeta in T. destruct T as (_ & Hq & _). rewrite Hq.
    symmetry. apply app_nil_r.
  - rewrite step_put. reflexivity.
  - pose proof (step_no_op_transport decode parse_json c) as T.
    cbv zeta in T. destruct T as (_ & Hq & _). rewrite Hq.
    symmetry. apply app_nil_r.
Qed.

(** One step writes its log, and takes from the queue the request of its
    log. *)
Lemma step_logged ev c :
  sock_open c = true ->
  let c' := step decode parse_json ev c in
  written c' = written c ++ bytes_of (step_log ev c)
  /\ requests_of (step_log ev c) ++ msg_queue c' = msg_queue c ++ puts [ev].
Proof.
  intros Ho. cbv zeta. unfold step_log.
  destruct (sends_request ev c) eqn:Hr.
  - destruct (@sends_request_inv ev c Hr) as (-> & Ht & Hc & _ & cmd & q & Hq).
    pose proof (step_idle decode parse_json c Ht Hc Ho) as H.
    cbv zeta in H. rewrite Hq in H. destruct H as (_ & _ & Hw & Hq' & _).
    rewrite Hq, Hw, Hq'. unfold bytes_of, requests_of.
    cbn [map concat filter fst snd app]. rewrite ?app_nil_r.
    split; reflexivity.
  - destruct (sends_heartbeat ev c) eqn:Hh.
    + destruct (@sends_heartbeat_inv ev c Hh) as (-> & Ht & Hc & _ & Hq & Hk).
      pose proof (step_idle decode parse_json c Ht Hc Ho) as H.
      cbv zeta in H. rewrite Hq, Hk in H.
      destruct H as (_ & _ & Hq' & Hw & _).
      rewrite Hq, Hw, Hq'. unfold bytes_of, requests_of.
      cbn [map concat filter fst snd app]. rewrite ?app_nil_r.
      split; reflexivity.
    + rewrite (step_writes_nothing decode parse_json ev c Hh Hr).
      rewrite (@step_queue_quiet ev c Ho Hr).
      unfold bytes_of, requests_of.
      cbn [map concat filter fst snd app]. rewrite ?app_nil_r.
      split; reflexivity.
Qed.

Lemma run_logged tr :
  forall c,
    sock_open c = true ->
    sock_open (run decode parse_json tr c) = true
    /\ written (run decode parse_json tr c)
       = written c ++ bytes_of (wire_log decode parse_json tr c)
    /\ requests_of (wire_log decode parse_json tr c)
       ++ msg_queue (run decode parse_json tr c)
       = msg_queue c ++ puts tr.
Proof.
  induction tr as [|ev tr IH]; intros c Ho.
  - unfold bytes_of, requests_of, puts.
    cbn [run fold_left wire_log map concat filter flat_map app].
    rewrite ?app_nil_r. auto.
  - pose proof (step_pending decode parse_json ev c Ho) as P.
    cbv zeta in P. destruct P as (Ho1 & _).
    destruct (@step_logged ev c Ho) as [Hw1 Hq1].
    destruct (IH _ Ho1) as (Ho' & Hw & Hq).
    rewrite run_cons. cbn [wire_log].
    rewrite bytes_of_app, requests_of_app, puts_cons.
    split; [exact Ho'|]. split.
    + rewrite Hw, Hw1, app_assoc. reflexivity.
    + rewrite <- app_assoc, Hq, !app_assoc, Hq1. reflexivity.
Qed.

(** A worker that does not run stays so and writes nothing. *)
Lemma step_not_running ev c :
  sock_thread_running c = false ->
  sock_thread_running (step decode parse_json ev c) = false
  /\ step_log ev c = [].
Proof.
  intros Hn. split.
  - destruct ev as [chunk| | |cmd|].
    + rewrite step_io_not_running; [exact Hn|exact Hn|].
      right. exists chunk. reflexivity.
    + rewrite step_io_not_running; [exact Hn|exact Hn|].
      left. reflexivity.
    + pose proof (step_tick_transport decode parse_json c) as T.
      cbv zeta in T. destruct T as (_ & _ & H & _).
      unfold sock_thread_running in *. rewrite H. exact Hn.
    + rewrite step_put. exact Hn.
    + pose proof (step_no_op_transport decode parse_json c) as T.
      cbv zeta in T. destruct T as (_ & _ & H).
      unfold sock_thread_running in *. rewrite H. exact Hn.
  - unfold step_log, sends_request, sends_heartbeat.
    destruct ev; try reflexivity. rewrite Hn. reflexivity.
Qed.

Lemma wire_log_not_running tr :
  forall c,
    sock_thread_running c = false -> wire_log decode parse_json tr c = [].
Proof.
  induction tr as [|ev tr IH]; intros c Hn; [reflexivity|].
  destruct (@step_not_running ev c Hn) as [Hn1 Hl].
  cbn [wire_log]. rewrite Hl, (IH _ Hn1). reflexivity.
Qed.


(** X6.  On a socket that takes every write the worker writes each
    queued request once, in the order of the queue.  The bytes written by
    an execution are the frames of its log in order, and the requests of
    the log followed by the requests still queued are the requests queued
    at the start followed by those that callers have put since: a request
    is written at most once, none is dropped, none comes from elsewhere.
    A request of the log was the head of the queue, a heartbeat of the
    log was written with the queue empty and the ping flag raised.  A
    [sendall] that raises on the non-blocking socket loses its request:
    the request has left the queue, of its bytes only a part without the
    delimiter is written, and since the exception has ended the worker,
    nothing is written afterwards and the requests behind it stay
    queued. *)
Theorem requests_written_once_in_order :
  (forall tr c,
      sock_open c = true ->
      let c' := run decode parse_json tr c in
      sock_open c' = true
      /\ written c' = written c ++ bytes_of (wire_log decode parse_json tr c)
      /\ requests_of (wire_log decode parse_json tr c) ++ msg_queue c'
         = msg_queue c ++ puts tr)
  /\ (forall ev c f,
         In f (step_log ev c) ->
         if fst f then exists q, msg_queue c = snd f :: q
         else snd f = noop_cmd /\ msg_queue c = []
              /\ keepalive_event c = true)
  /\ (forall sent cmd q c,
         sock_open c = true -> sock_thread c = Some Running ->
         msg_queue c = cmd :: q ->
         let c' := step_sys decode parse_json (SendBlocked sent) c in
         msg_queue c' = q
         /\ written c'
            = written c ++ firstn sent (encode_utf8 (json_dumps cmd))
         /\ ~ In x00 (firstn sent (encode_utf8 (json_dumps cmd)))
         /\ forall tr,
             written (run decode parse_json tr c') = written c'
             /\ msg_queue (run decode parse_json tr c') = q ++ puts tr).
Proof.
  split; [intros tr c Ho; cbv zeta; apply run_logged; exact Ho|]. split.
  - intros ev c f. unfold step_log.
    destruct (sends_request ev c) eqn:Hr.
    + destruct (@sends_request_inv ev c Hr) as (_ & _ & _ & _ & cmd & q & Hq).
      rewrite Hq. intros [<-|[]]. exists q. reflexivity.
    + destruct (sends_heartbeat ev c) eqn:Hh; [|intros []].
      destruct (@sends_heartbeat_inv ev c Hh) as (_ & _ & _ & _ & Hq & Hk).
      intros [<-|[]]. cbn [fst snd]. auto.
  - intros sent cmd q c Ho Ht Hq. cbv zeta.
    assert (Hc : sock_handler_continues c = true)
      by (unfold sock_handler_continues; rewrite Hq, orb_true_r;
          reflexivity).
    pose proof (@step_send_blocked sent c Ht Hc Ho) as B. cbv zeta in B.
    rewrite Hq in B. destruct B as (Ho1 & Hq1 & Hw1 & Ht1).
    rewrite removelast_wire_bytes in Hw1.
    split; [exact Hq1|]. split; [exact Hw1|]. split.
    + intros Hin. apply (json_bytes_no_delimiter cmd).
      revert Hin. apply in_prefix.
    + intros tr.
      destruct (@run_logged tr _ Ho1) as (_ & Hw & Hl).
      rewrite wire_log_not_running in Hw, Hl
        by (unfold sock_thread_running; rewrite Ht1; reflexivity).
      unfold bytes_of, requests_of in Hw, Hl.
      cbn [map concat filter app] in Hw, Hl.
      rewrite app_nil_r in Hw. rewrite Hq1 in Hl. split; assumption.
Qed.

End DeliveryFacts.



Lemma requests_written_once_in_order_witness :
  requests_of (wire_log ascii_decode sample_parse_json
                 [IoWouldBlock; CallerPut late_cmd; IoWouldBlock;
                  IoWouldBlock] busy_core)
  ++ msg_queue (run ascii_decode sample_parse_json
                  [IoWouldBlock; CallerPut late_cmd; IoWouldBlock;
                   IoWouldBlock] busy_core)
  = [sample_cmd; noop_cmd; late_cmd].
Proof.
  destruct (requests_written_once_in_order ascii_decode sample_parse_json)
    as (H & _).
  exact (proj2 (proj2 (H [IoWouldBlock; CallerPut late_cmd; IoWouldBlock;
                          IoWouldBlock] busy_core eq_refl))).
Defined.

(** ** The method wrappers *)

Lemma truthy_str s : truthy (JStr s) = true <-> s <> "".
Proof.
  simpl. rewrite negb_true_iff. split.
  - intros H ->. discriminate.
  - intros H. apply String.eqb_neq. exact H.
Qed.

Lemma truthy_list items : truthy (JList items) = true <-> items <> [].
Proof.
  simpl. destruct items; split; congruence.
Qed.

(** X14.  [Control.Get] checks its argument before anything else: a
    missing or empty argument raises the AttributeError, an argument that
    is neither list nor string the ValueError, both with the core
    untouched (no request id consumed, nothing queued).  A single name is
    sent as the list of that name, so the call with a name and the call
    with the one-element list of it are the same computation; a non-empty
    list is sent as it is, whatever its elements are. *)
Theorem control_get_arguments :
  (forall names c,
      truthy names = false ->
      ControlMethods.get names c
      = (Raised (AttributeError
                   "Control.Get needs a control name or a list of names."),
         c))
  /\ (forall names c,
         truthy names = true ->
         (forall items, names <> JList items) ->
         (forall s, names <> JStr s) ->
         ControlMethods.get names c
         = (Raised (ValueError
                      "Must either give one string or a list of strings as arguments."),
            c))
  /\ (forall s c,
         s <> "" ->
         ControlMethods.get (JStr s) c
         = ControlMethods.get (JList [JStr s]) c)
  /\ (forall items c,
         items <> [] ->
         ControlMethods.get (JList items) c
         = _send "Control.Get" (JList items) c).
Proof.
  split; [|split; [|split]].
  - intros names c H. unfold ControlMethods.get. rewrite H. reflexivity.
  - intros names c H Hl Hs. unfold ControlMethods.get. rewrite H.
    destruct names; try reflexivity.
    + exfalso. exact (Hs s eq_refl).
    + exfalso. exact (Hl items eq_refl).
  - intros s c H. apply truthy_str in H. unfold ControlMethods.get.
    rewrite H. reflexivity.
  - intros items c H. apply truthy_list in H. unfold ControlMethods.get.
    rewrite H. reflexivity.
Qed.

Lemma control_get_arguments_witness :
  ControlMethods.get gain connected_core
  = ControlMethods.get (JList [gain]) connected_core.
Proof.
  destruct control_get_arguments as (_ & _ & H & _).
  apply H. discriminate.
Defined.

(** X15.  [Control.Set] takes its value by its truth: a missing name or
    value raises the AttributeError with the core untouched, and so does
    every value that counts as false, so that a control cannot be set to
    0, to [False] or to the empty string.  With a name and a value that
    count as true the request carries Name and Value, and Ramp exactly
    when the ramp counts as true. *)
Theorem control_set_arguments :
  let refused c :=
    (Raised (AttributeError
               "Control.Set needs a name and a value. Ramp is optional."),
     c) : outcome json * core in
  (forall name value ramp c,
      truthy name = false \/ truthy value = false ->
      ControlMethods.set name value ramp c = refused c)
  /\ (forall name ramp c,
         ControlMethods.set name (JInt 0) ramp c = refused c
         /\ ControlMethods.set name (JBool false) ramp c = refused c
         /\ ControlMethods.set name (JStr "") ramp c = refused c)
  /\ (forall name value ramp c,
         truthy name = true -> truthy value = true ->
         ControlMethods.set name value ramp c
         = _send "Control.Set"
             (JDict ([("Name", name); ("Value", value)]
                     ++ if truthy ramp then [("Ramp", ramp)] else []))
             c).
Proof.
  cbv zeta.
  assert (R : forall name value ramp c,
             truthy name = false \/ truthy value = false ->
             ControlMethods.set name value ramp c
             = (Raised (AttributeError
                          "Control.Set needs a name and a value. Ramp is optional."),
                c)).
  { intros name value ramp c H. unfold ControlMethods.set.
    destruct H as [H|H]; rewrite H; simpl; [|rewrite orb_true_r];
      reflexivity. }
  split; [exact R|]. split.
  - intros name ramp c. repeat split; apply R; right; reflexivity.
  - intros name value ramp c Hn Hv. unfold ControlMethods.set.
    rewrite Hn, Hv. simpl. destruct (truthy ramp); reflexivity.
Qed.

Lemma control_set_arguments_witness :
  ControlMethods.set gain (JInt 5) JNull connected_core
  = _send "Control.Set" (JDict [("Name", gain); ("Value", JInt 5)])
      connected_core.
Proof.
  pose proof control_set_arguments as H. cbv zeta in H.
  destruct H as (_ & _ & H).
  exact (H gain (JInt 5) JNull connected_core eq_refl eq_refl).
Defined.

(** X16.  The wrappers of Component check truth before type.  [get] and
    [set] raise the AttributeError when name or controls count as false
    and only then the ValueError when the name is no string or the
    controls are no list, in both cases with the core untouched; with
    a non-empty name and a non-empty list [get] sends them as Name and
    Controls and [set] as Name and Control.  [get_controls] checks only
    the truth of its name, and [get_components] sends a request without
    a params member. *)
Theorem component_arguments :
  (forall name controls c,
      truthy name = false \/ truthy controls = false ->
      (exists msg,
          ComponentMethods.get name controls c
          = (Raised (AttributeError msg), c))
      /\ exists msg,
          ComponentMethods.set name controls c
          = (Raised (AttributeError msg), c))
  /\ (forall name controls c,
         truthy name = true -> truthy controls = true ->
         (forall s, name <> JStr s) \/ (forall items, controls <> JList items) ->
         (exists msg,
             ComponentMethods.get name controls c
             = (Raised (ValueError msg), c))
         /\ exists msg,
             ComponentMethods.set name controls c
             = (Raised (ValueError msg), c))
  /\ (forall s items c,
         s <> "" -> items <> [] ->
         ComponentMethods.get (JStr s) (JList items) c
         = _send "Component.Get"
             (JDict [("Name", JStr s); ("Controls", JList items)]) c
         /\ ComponentMethods.set (JStr s) (JList items) c
            = _send "Component.Set"
                (JDict [("Name", JStr s); ("Control", JList items)]) c)
  /\ (forall name c,
         ComponentMethods.get_controls name c
         = if truthy name
           then _send "Component.GetControls" (JDict [("Name", name)]) c
           else (Raised (AttributeError
                           "Component.GetControls needs a name (str) of a Component"),
                 c))
  /\ (forall c,
         ComponentMethods.get_components c
         = _send "Component.GetComponents" JNull c
         /\ forall n,
             has_key "params" (request_dict "Component.GetComponents" JNull n)
             = false).
Proof.
  split; [|split; [|split; [|split]]].
  - intros name controls c H.
    unfold ComponentMethods.get, ComponentMethods.set.
    assert (E : negb (truthy name) || negb (truthy controls) = true)
      by (destruct H as [H|H]; rewrite H; simpl;
          [|rewrite orb_true_r]; reflexivity).
    rewrite E. split; eexists; reflexivity.
  - intros name controls c Hn Hc H.
    unfold ComponentMethods.get, ComponentMethods.set.
    rewrite Hn, Hc. simpl.
    destruct name; try (split; eexists; reflexivity).
    destruct controls; try (split; eexists; reflexivity).
    exfalso. destruct H as [H|H].
    + exact (H s eq_refl).
    + exact (H items eq_refl).
  - intros s items c Hs Hi. apply truthy_str in Hs.
    apply truthy_list in Hi.
    unfold ComponentMethods.get, ComponentMethods.set.
    rewrite Hs, Hi. split; reflexivity.
  - intros name c. unfold ComponentMethods.get_controls.
    destruct (truthy name); reflexivity.
  - intros c. split; reflexivity.
Qed.

Lemma component_arguments_witness :
  ComponentMethods.get gain two_controls connected_core
  = _send "Component.Get"
      (JDict [("Name", gain); ("Controls", two_controls)]) connected_core.
Proof.
  destruct component_arguments as (_ & _ & H & _).
  apply H; discriminate.
Defined.

(** ** The text and the stream that are written *)

Lemma printable_app s t : printable (s ++ t) = printable s && printable t.
Proof.
  induction s as [|c s IH]; [reflexivity|].
  simpl. rewrite IH, !andb_assoc. reflexivity.
Qed.

Lemma printable_escape_char c : printable (escape_char c) = true.
Proof. destruct c as [[] [] [] [] [] [] [] []]; reflexivity. Qed.

Lemma printable_escape s : printable (escape s) = true.
Proof.
  induction s as [|c s IH]; [reflexivity|].
  simpl. rewrite printable_app, printable_escape_char, IH. reflexivity.
Qed.

Lemma printable_basestring s : printable (encode_basestring_ascii s) = true.
Proof.
  unfold encode_basestring_ascii. cbn [printable].
  rewrite printable_app, printable_escape. reflexivity.
Qed.

Lemma printable_uint d : printable (NilEmpty.string_of_uint d) = true.
Proof. induction d; simpl; auto. Qed.

Lemma printable_int n : printable (NilZero.string_of_int (Z.to_int n)) = true.
Proof.
  unfold NilZero.string_of_int, NilZero.string_of_uint.
  destruct (Z.to_int n) as [d|d]; destruct d; simpl;
    auto using printable_uint.
Qed.

(** [json.dumps] with [ensure_ascii] emits printable ASCII only. *)
Lemma printable_json_dumps j : printable (json_dumps j) = true.
Proof.
  induction j as [| v | n | s | items IH | items IH] using json_induction.
  - reflexivity.
  - destruct v; reflexivity.
  - apply printable_int.
  - apply printable_basestring.
  - cbn [json_dumps]. rewrite !printable_app.
    match goal with
    | |- context [printable (?f items)] =>
        assert (He : printable (f items) = true)
    end.
    { induction IH as [|x l Hx Hl IHl]; [reflexivity|].
      destruct l as [|y l']; revert IHl; simpl;
        repeat (rewrite ?printable_app, ?Hx; simpl); auto. }
    rewrite He. reflexivity.
  - cbn [json_dumps]. rewrite !printable_app.
    match goal with
    | |- context [printable (?f items)] =>
        assert (He : printable (f items) = true)
    end.
    { induction IH as [|[k v] l Hx Hl IHl]; [reflexivity|].
      simpl in Hx.
      destruct l as [|[k' v'] l']; revert IHl; simpl;
        repeat (rewrite ?printable_app, ?printable_escape, ?Hx; simpl);
        auto. }
    rewrite He. reflexivity.
Qed.

Lemma printable_bytes s :
  printable s = true ->
  Forall (fun x => 32 <= Byte.to_nat x <= 126) (encode_utf8 s).
Proof.
  unfold encode_utf8, list_byte_of_string.
  induction s as [|c s IH]; cbn [printable list_ascii_of_string map];
    [constructor|].
  rewrite !andb_true_iff, !Nat.leb_le. intros [[H1 H2] Hs].
  constructor; [|exact (IH Hs)].
  assert (E : Byte.to_nat (byte_of_ascii c) = nat_of_ascii c).
  { destruct c as [[] [] [] [] [] [] [] []]; reflexivity. }
  rewrite E. split; assumption.
Qed.

Lemma ascii_decode_encode s :
  Forall (fun x => 32 <= Byte.to_nat x <= 126) (encode_utf8 s) ->
  ascii_decode (encode_utf8 s) = Some s.
Proof.
  intros H. unfold ascii_decode.
  assert (E : forallb (fun x => Byte.to_nat x <? 128) (encode_utf8 s) = true).
  { apply forallb_forall. intros x Hx.
    rewrite Forall_forall in H. apply Nat.ltb_lt.
    specialize (H x Hx). lia. }
  rewrite E. unfold encode_utf8. rewrite string_of_list_byte_of_string.
  reflexivity.
Qed.

(** X17.  What is written for a command is printable ASCII and one
    delimiter.  Every byte of the serialization of a command lies between
    space and tilde, whatever characters the strings of the command hold,
    there are as many bytes as the text has characters, and decoding the
    bytes gives the text back; the payload of [_send_cmd] is these bytes
    and a final 0x00. *)
Theorem payload_is_printable_ascii cmd :
  Forall (fun x => 32 <= Byte.to_nat x <= 126) (encode_utf8 (json_dumps cmd))
  /\ length (encode_utf8 (json_dumps cmd)) = String.length (json_dumps cmd)
  /\ ascii_decode (encode_utf8 (json_dumps cmd)) = Some (json_dumps cmd)
  /\ wire_bytes cmd = encode_utf8 (json_dumps cmd) ++ [x00]
  /\ last (wire_bytes cmd) x01 = x00.
Proof.
  pose proof (printable_bytes _ (printable_json_dumps cmd)) as H.
  split; [exact H|]. split; [|split; [|split]].
  - unfold encode_utf8, list_byte_of_string. rewrite length_map.
    generalize (json_dumps cmd). intros s.
    induction s as [|c s IH]; simpl; congruence.
  - apply ascii_decode_encode. exact H.
  - reflexivity.
  - unfold wire_bytes. apply last_last.
Qed.

(** The recording reader hands back the remainder and has seen the
    frames. *)
Lemma handle_frames_record frames rest :
  forall seen,
    handle_frames record_frame frames rest seen
    = (Done rest, seen ++ frames).
Proof.
  induction frames as [|f frames IH]; intros seen.
  - simpl. rewrite app_nil_r. reflexivity.
  - cbn [handle_frames]. unfold bind, record_frame, modify.
    rewrite IH, <- app_assoc. reflexivity.
Qed.

Lemma wire_bytes_delimited cmds :
  concat (map wire_bytes cmds)
  = delimited (map (fun cmd => encode_utf8 (json_dumps cmd)) cmds).
Proof.
  unfold delimited. rewrite map_map. reflexivity.
Qed.

(** X18.  Writer and reader agree on the frames.  The stream that the
    worker writes for a list of commands splits, by the rule the worker
    itself reads with, into exactly the serializations of these commands
    in order, with nothing left over; and a reader that runs the frame
    loop of the worker over that stream sees exactly these frames however
    the stream is cut into reads. *)
Theorem written_stream_reads_back cmds chunks :
  concat chunks = concat (map wire_bytes cmds) ->
  let frames := map (fun cmd => encode_utf8 (json_dumps cmd)) cmds in
  frames_of (concat (map wire_bytes cmds)) = frames
  /\ rest_of (concat (map wire_bytes cmds)) = []
  /\ recv_chunks record_frame chunks [] [] = (Done [], frames).
Proof.
  intros Hc frames.
  assert (Hs : split x00 (concat (map wire_bytes cmds)) = frames ++ [[]]).
  { rewrite wire_bytes_delimited.
    rewrite <- (app_nil_r (delimited _)).
    apply split_delimited; [|simpl; tauto].
    apply Forall_forall. intros f Hf. apply in_map_iff in Hf.
    destruct Hf as [cmd [<- _]]. apply json_bytes_no_delimiter. }
  assert (Hf : frames_of (concat (map wire_bytes cmds)) = frames)
    by (unfold frames_of; rewrite Hs; apply removelast_last).
  assert (Hr : rest_of (concat (map wire_bytes cmds)) = [])
    by (unfold rest_of; rewrite Hs; apply last_last).
  split; [exact Hf|]. split; [exact Hr|].
  rewrite recv_chunks_spec by (simpl; tauto).
  simpl app. rewrite Hc, Hf, Hr. apply handle_frames_record.
Qed.

Lemma written_stream_reads_back_witness :
  recv_chunks record_frame
    [firstn 7 (wire_bytes sample_cmd);
     skipn 7 (wire_bytes sample_cmd) ++ wire_bytes noop_cmd] [] []
  = (Done [],
     [encode_utf8 (json_dumps sample_cmd); encode_utf8 (json_dumps noop_cmd)]).
Proof.
  refine (proj2 (proj2 (@written_stream_reads_back [sample_cmd; noop_cmd]
                          [firstn 7 (wire_bytes sample_cmd);
                           skipn 7 (wire_bytes sample_cmd)
                           ++ wire_bytes noop_cmd] _))).
  vm_compute. reflexivity.
Defined.

(** ** Shutdown of keepalive and the next connection *)

Section RestartFacts.
Variable decode : bytes -> option string.
Variable parse_json : string -> option parsed_json.

(** No step of the workers or of a caller touches the shutdown flag. *)
Lemma step_stop_threads ev c :
  stop_threads (step decode parse_json ev c) = stop_threads c.
Proof.
  destruct ev as [chunk| | |cmd|].
  - unfold step, sock_handler_turn.
    destruct (sock_thread c) as [[| | |e0]|]; try reflexivity.
    destruct (sock_handler_continues c); [|reflexivity].
    pose proof (on_recv_same_transport decode parse_json chunk c) as H.
    destruct (on_recv decode parse_json chunk c) as [[[]| e |] c'];
      simpl in H; destruct H as (_ & _ & _ & _ & _ & H & _); exact H.
  - core_fields c. unfold step, sock_handler_turn. cbn [sock_thread].
    destruct sock_thread0 as [[| | |e0]|]; try reflexivity.
    destruct (sock_handler_continues _); [|reflexivity].
    unfold on_would_block, bind, get, _send_cmd, sock_sendall.
    cbn [msg_queue keepalive_event fst snd bind get sock].
    destruct sock0 as [[w cn nb cl]|]; [destruct cl|];
      destruct msg_queue0 as [|cmd q]; destruct keepalive_event0;
      reflexivity.
  - core_fields c. unfold step, keepalive_turn. cbn [keepalive_thread].
    destruct keepalive_thread0 as [[| | |e0]|]; try reflexivity.
    destruct (keepalive_continues _); [|reflexivity].
    unfold keepalive_body, bind, get. cbn [noop_timer fst snd].
    destruct (noop_timer0 =? 0)%Z; reflexivity.
  - reflexivity.
  - core_fields c. unfold step, no_op, sock_thread_is_alive.
    unfold bind, get, ret. cbn [sock_thread keepalive_event fst snd].
    destruct sock_thread0 as [t|]; [|reflexivity].
    cbn [keepalive_event].
    destruct (is_alive t && negb keepalive_event0); reflexivity.
Qed.

Lemma join_stop_threads script :
  forall c,
    stop_threads (snd (sock_thread_join decode parse_json script c))
    = stop_threads c.
Proof.
  induction script as [|ev script IH]; intros c; simpl;
    destruct (sock_thread c) as [[| | |e0]|]; try reflexivity.
  rewrite IH. apply step_stop_threads.
Qed.

Lemma close_stop_threads script c :
  stop_threads (snd (close decode parse_json script c)) = true.
Proof.
  unfold close, bind, modify. cbn [fst snd].
  pose proof (join_stop_threads script (set_stop_threads true c)) as H.
  destruct (sock_thread_join decode parse_json script
              (set_stop_threads true c)) as [[[]| e |] c1];
    simpl in H; try exact H.
  unfold sock_close, bind, get, logging_info, emit, modify, ret, raise.
  destruct (sock c1); simpl; exact H.
Qed.

Lemma keepalive_continues_false_iff c :
  keepalive_continues c = false
  <-> stop_threads c = true \/ sock_thread_running c = false.
Proof.
  unfold keepalive_continues, sock_thread_running.
  rewrite andb_false_iff, negb_false_iff. reflexivity.
Qed.

(** X19.  keepalive, which nobody joins, leaves its loop exactly when
    shutdown has been requested or the worker is not alive: a turn of the
    running keepalive ends the thread exactly then, and a keepalive that
    does not run changes nothing.  Whatever happens while close waits and
    however close ends, shutdown is requested afterwards, so a keepalive
    that still runs ends at its next turn. *)
Theorem keepalive_stops_with_worker :
  (forall c,
      keepalive_continues c = false
      <-> stop_threads c = true \/ sock_thread_running c = false)
  /\ (forall c,
         keepalive_thread c = Some Running ->
         (keepalive_thread (step decode parse_json Tick c) = Some Finished
          <-> stop_threads c = true \/ sock_thread_running c = false))
  /\ (forall c,
         keepalive_thread c <> Some Running ->
         step decode parse_json Tick c = c)
  /\ (forall script c,
         let c' := snd (close decode parse_json script c) in
         stop_threads c' = true
         /\ (keepalive_thread c' = Some Running ->
             keepalive_thread (step decode parse_json Tick c')
             = Some Finished)).
Proof.
  assert (T : forall c,
             keepalive_thread c = Some Running ->
             (keepalive_thread (step decode parse_json Tick c) = Some Finished
              <-> keepalive_continues c = false)).
  { intros c Ht. split.
    - intros Hf. destruct (keepalive_continues c) eqn:Hc; [|reflexivity].
      rewrite (@step_tick_eq decode parse_json c Ht Hc) in Hf.
      destruct (noop_timer c =? 0)%Z; simpl in Hf; congruence.
    - intros Hc. unfold step, keepalive_turn. rewrite Ht, Hc. reflexivity. }
  split; [exact keepalive_continues_false_iff|]. split; [|split].
  - intros c Ht. rewrite (T c Ht). apply keepalive_continues_false_iff.
  - intros c Hn. unfold step, keepalive_turn.
    destruct (keepalive_thread c) as [[| | |e0]|]; try reflexivity.
    exfalso. apply Hn. reflexivity.
  - intros script c c'. split; [apply close_stop_threads|].
    intros Ht. apply (T c' Ht). apply keepalive_continues_false_iff.
    left. apply close_stop_threads.
Qed.

(** X20.  connect starts over with the flags but not with the queues.  On
    a core without a live worker a connect that succeeds returns [None]
    with both threads running on a new open socket on which nothing is
    written, the three flags lowered and the buffer empty; the Outbound
    Queue, the response queue and the countdown are what the last
    connection left.  A request that was still queued is therefore the
    first thing written on the new connection. *)
Theorem reconnect_keeps_queues c :
  no_live_worker c = true ->
  let c1 := snd (connect true c) in
  fst (connect true c) = Done JNull
  /\ live c1 /\ written c1 = []
  /\ keepalive_event c1 = false /\ response_is_ready c1 = false
  /\ sock_handler_data c1 = []
  /\ msg_queue c1 = msg_queue c /\ response_queue c1 = response_queue c
  /\ noop_timer c1 = noop_timer c
  /\ (forall cmd q,
         msg_queue c = cmd :: q ->
         written (step decode parse_json IoWouldBlock c1) = wire_bytes cmd).
Proof.
  intros Hg c1. unfold c1. clear c1. unfold no_live_worker in Hg.
  core_fields c. cbn [sock_thread] in Hg.
  assert (E : connect true
                {| sock := sock0; sock_thread := sock_thread0;
                   keepalive_thread := keepalive_thread0;
                   msg_queue := msg_queue0;
                   response_queue := response_queue0;
                   keepalive_event := keepalive_event0;
                   response_is_ready := response_is_ready0;
                   stop_threads := stop_threads0;
                   noop_timer := noop_timer0;
                   sock_handler_data := data0;
                   id_generator := id0; log := log0 |}
              = (Done JNull,
                 {| sock := Some {| wire := []; connected := true;
                                    nonblocking := true; closed := false |};
                    sock_thread := Some Running;
                    keepalive_thread := Some Running;
                    msg_queue := msg_queue0;
                    response_queue := response_queue0;
                    keepalive_event := false;
                    response_is_ready := false;
                    stop_threads := false;
                    noop_timer := noop_timer0;
                    sock_handler_data := [];
                    id_generator := id0;
                    log := (log0 ++ [LogInfo "Connecting to Core..."])
                           ++ [LogInfo "Connected"] |})).
  { unfold connect, logging_info, emit. unfold bind at 1. unfold modify at 1.
    unfold bind at 1. unfold get. cbn [sock_thread set_log]. rewrite Hg.
    reflexivity. }
  rewrite E. cbn [fst snd].
  split; [reflexivity|]. split; [repeat split|].
  do 7 (split; [reflexivity|]).
  intros cmd q Hq. cbn [msg_queue] in Hq. subst msg_queue0.
  reflexivity.
Qed.
End RestartFacts.

Lemma keepalive_stops_with_worker_witness :
  keepalive_thread (step ascii_decode sample_parse_json Tick closed_core)
  = Some Finished.
Proof.
  destruct (keepalive_stops_with_worker ascii_decode sample_parse_json)
    as (_ & H & _).
  apply H; [reflexivity|]. left. reflexivity.
Defined.

Lemma reconnect_keeps_queues_witness :
  written (step ascii_decode sample_parse_json IoWouldBlock
             (snd (connect true
                     (set_msg_queue [sample_cmd] closed_core))))
  = wire_bytes sample_cmd.
Proof.
  pose proof (@reconnect_keeps_queues ascii_decode sample_parse_json
                (set_msg_queue [sample_cmd] closed_core) eq_refl) as H.
  cbv zeta in H.
  exact (proj2 (proj2 (proj2 (proj2 (proj2 (proj2 (proj2 (proj2 (proj2 H))))))))
           sample_cmd [] eq_refl).
Defined.
